(** * Session layer of the retrieval-augmented chat front end

    A shallow embedding of the three React hooks that own the client-side
    state: [useConversations], [useFileUpload] and [useFileList].

    Conventions of the embedding.
    - A JavaScript string is its sequence of UTF-16 code units, which is what
      [length], [slice] and [===] observe.
    - A hook is a record of state cells.  An event handler runs against the
      values of the last render (its closure) and enqueues state updates;
      React applies the queue, in order, before the next render.
    - Values the handlers draw from the environment ([uuidv4()], [new Date()],
      [window.confirm], network responses) are inputs of the model. *)

From Stdlib Require Import List ZArith NArith Bool Lia String Ascii.
Import ListNotations.

Set Implicit Arguments.

(* ================================================================= *)
(** ** JavaScript values used by the hooks *)

Module Js.

(** Strings as sequences of UTF-16 code units. *)
Definition JsString := list N.

(** An ASCII literal of the source text. *)
Definition lit (s : string) : JsString :=
  map N_of_ascii (list_ascii_of_string s).

Fixpoint str_eqb (a b : JsString) : bool :=
  match a, b with
  | [], [] => true
  | x :: a', y :: b' => N.eqb x y && str_eqb a' b'
  | _, _ => false
  end.

(** [s.slice(0, n)] for [n >= 0]. *)
Definition slice0 (n : nat) (s : JsString) : JsString := firstn n s.

(** WhiteSpace and LineTerminator code points, the ones [trim] strips. *)
Definition is_white_space (c : N) : bool :=
  (  N.eqb c 9 || N.eqb c 10 || N.eqb c 11 || N.eqb c 12 || N.eqb c 13
  || N.eqb c 32 || N.eqb c 160 || N.eqb c 5760
  || (N.leb 8192 c && N.leb c 8202)
  || N.eqb c 8232 || N.eqb c 8233 || N.eqb c 8239 || N.eqb c 8287
  || N.eqb c 12288 || N.eqb c 65279)%N.

Fixpoint trim_start (s : JsString) : JsString :=
  match s with
  | c :: s' => if is_white_space c then trim_start s' else s
  | [] => []
  end.

Definition trim (s : JsString) : JsString :=
  rev (trim_start (rev (trim_start s))).

(** Truthiness of a string: the empty string is the only falsy one. *)
Definition truthy (s : JsString) : bool :=
  match s with [] => false | _ :: _ => true end.

(** A [Date] object holds a time value: milliseconds since the epoch, or
    NaN for an invalid date. *)
Inductive Date :=
| InvalidDate
| TimeValue (t : Z).

(** Values a [catch] clause can receive. *)
Inductive Thrown :=
| ErrorObject (message : JsString)   (* [err instanceof Error] *)
| OtherValue.

(** *** The textual form of a [Date]

    [Date.prototype.toISOString] writes a valid time value as
    [YYYY-MM-DDTHH:mm:ss.sssZ] in the proleptic Gregorian calendar, with the
    expanded year [+YYYYYY] / [-YYYYYY] outside 0..9999. *)

Local Open Scope Z_scope.

Definition msPerDay : Z := 86400000.
Definition maxTimeValue : Z := 8640000000000000.

Definition valid_time (t : Z) : Prop := - maxTimeValue <= t <= maxTimeValue.

(** Year, month (1..12) and day of month (1..31) of a day number counted
    from 1970-01-01. *)
Definition civil_from_days (z : Z) : Z * Z * Z :=
  let z' := z + 719468 in
  let era := z' / 146097 in
  let doe := z' - era * 146097 in
  let yoe := (doe - doe / 1460 + doe / 36524 - doe / 146096) / 365 in
  let doy := doe - (365 * yoe + yoe / 4 - yoe / 100) in
  let mp := (5 * doy + 2) / 153 in
  let d := doy - (153 * mp + 2) / 5 + 1 in
  let m := if mp <? 10 then mp + 3 else mp - 9 in
  let y := yoe + era * 400 in
  (if m <=? 2 then y + 1 else y, m, d).

Definition days_from_civil (y m d : Z) : Z :=
  let y' := if m <=? 2 then y - 1 else y in
  let era := y' / 400 in
  let yoe := y' - era * 400 in
  let doy := (153 * (if 2 <? m then m - 3 else m + 9) + 2) / 5 + d - 1 in
  let doe := yoe * 365 + yoe / 4 - yoe / 100 + doy in
  era * 146097 + doe - 719468.

Definition digit (n : Z) : N := (48 + Z.to_N n)%N.

(** The [k] low decimal digits of [n], most significant first. *)
Fixpoint pad (k : nat) (n : Z) : JsString :=
  match k with
  | O => []
  | S k' => digit ((n / 10 ^ Z.of_nat k') mod 10) :: pad k' n
  end.

Definition year_text (y : Z) : JsString :=
  if (0 <=? y) && (y <=? 9999) then pad 4 y
  else if y <? 0 then lit "-" ++ pad 6 (- y)
  else lit "+" ++ pad 6 y.

Definition toISOString (t : Z) : JsString :=
  let day := t / msPerDay in
  let tod := t mod msPerDay in
  let '(y, m, d) := civil_from_days day in
  year_text y ++ lit "-" ++ pad 2 m ++ lit "-" ++ pad 2 d ++ lit "T"
    ++ pad 2 (tod / 3600000) ++ lit ":" ++ pad 2 ((tod / 60000) mod 60)
    ++ lit ":" ++ pad 2 ((tod / 1000) mod 60) ++ lit "." ++ pad 3 (tod mod 1000)
    ++ lit "Z".

(** [Date.prototype.toJSON]: the ISO text, or [null] for an invalid date. *)
Definition toJSON (d : Date) : option JsString :=
  match d with
  | InvalidDate => None
  | TimeValue t => Some (toISOString t)
  end.

(** Reading the text back.  Only the format [toISOString] writes is
    modelled; any other text is taken as unparsable.  A day of month up to
    31 is accepted for every month and counted on from the first of the
    month. *)
Definition digit_value (c : N) : option Z :=
  if (N.leb 48 c && N.leb c 57)%N then Some (Z.of_N c - 48) else None.

Fixpoint read_digits (k : nat) (acc : Z) (s : JsString) : option (Z * JsString) :=
  match k with
  | O => Some (acc, s)
  | S k' =>
      match s with
      | c :: s' =>
          match digit_value c with
          | Some v => read_digits k' (10 * acc + v) s'
          | None => None
          end
      | [] => None
      end
  end.

Definition expect (c : N) (s : JsString) : option JsString :=
  match s with
  | c' :: s' => if N.eqb c c' then Some s' else None
  | [] => None
  end.

Definition read_year (s : JsString) : option (Z * JsString) :=
  match s with
  | c :: s' =>
      if N.eqb c 43 then read_digits 6 0 s'
      else if N.eqb c 45 then
        match read_digits 6 0 s' with
        | Some (y, r) => if y =? 0 then None else Some (- y, r)
        | None => None
        end
      else read_digits 4 0 s
  | [] => None
  end.

Definition bind_opt {A B} (o : option A) (f : A -> option B) : option B :=
  match o with Some a => f a | None => None end.

Definition parse_iso (s : JsString) : option Z :=
  bind_opt (read_year s) (fun '(y, s) =>
  bind_opt (expect 45 s) (fun s =>
  bind_opt (read_digits 2 0 s) (fun '(m, s) =>
  bind_opt (expect 45 s) (fun s =>
  bind_opt (read_digits 2 0 s) (fun '(d, s) =>
  bind_opt (expect 84 s) (fun s =>
  bind_opt (read_digits 2 0 s) (fun '(h, s) =>
  bind_opt (expect 58 s) (fun s =>
  bind_opt (read_digits 2 0 s) (fun '(mi, s) =>
  bind_opt (expect 58 s) (fun s =>
  bind_opt (read_digits 2 0 s) (fun '(sec, s) =>
  bind_opt (expect 46 s) (fun s =>
  bind_opt (read_digits 3 0 s) (fun '(ms, s) =>
  bind_opt (expect 90 s) (fun s =>
  match s with
  | [] =>
      if (1 <=? m) && (m <=? 12) && (1 <=? d) && (d <=? 31)
         && (h <=? 23) && (mi <=? 59) && (sec <=? 59)
      then
        let t := days_from_civil y m d * msPerDay
                 + h * 3600000 + mi * 60000 + sec * 1000 + ms in
        if (- maxTimeValue <=? t) && (t <=? maxTimeValue) then Some t else None
      else None
  | _ :: _ => None
  end)))))))))))))).

(** [new Date(v)] for a value read back from JSON: a string is parsed,
    [null] converts to the number 0. *)
Definition Date_of_json (v : option JsString) : Date :=
  match v with
  | None => TimeValue 0
  | Some s => match parse_iso s with Some t => TimeValue t | None => InvalidDate end
  end.

Lemma str_eqb_eq (a b : JsString) : str_eqb a b = true <-> a = b.
Proof.
  revert b; induction a as [|x a IH]; intros [|y b]; simpl.
  - tauto.
  - split; discriminate.
  - split; discriminate.
  - rewrite andb_true_iff, N.eqb_eq, IH.
    split; [intros [-> ->]; reflexivity | intros E; injection E; auto].
Qed.

Lemma str_eqb_refl (a : JsString) : str_eqb a a = true.
Proof. apply str_eqb_eq; reflexivity. Qed.

Lemma str_eqb_neq (a b : JsString) : str_eqb a b = false <-> a <> b.
Proof.
  rewrite <- str_eqb_eq. destruct (str_eqb a b); split; intros H.
  - discriminate.
  - exfalso; apply H; reflexivity.
  - discriminate.
  - reflexivity.
Qed.

End Js.

(* ================================================================= *)
(** ** [useConversations]: the conversation session manager *)

Module Conversations.
Import Js.

Inductive Role := user | assistant.

Definition role_eqb (a b : Role) : bool :=
  match a, b with
  | user, user | assistant, assistant => true
  | _, _ => false
  end.

Section Hook.

(** The [Message] type is declared in [types/api], which the hook only
    imports.  The hook reads [role] and [content]; the fields it never
    touches (timestamp, sources, expanded queries) are carried as
    [extra], and [jsonExtra] is what a trip through
    [JSON.stringify] / [JSON.parse] makes of them. *)
Variable MessageExtra : Type.
Variable jsonExtra : MessageExtra -> MessageExtra.

Record Message := {
  role : Role;
  content : JsString;
  extra : MessageExtra
}.

Record Conversation := {
  id : JsString;
  title : JsString;
  messages : list Message;
  lastUpdated : Date;
  metaInformation : option JsString
}.

(** The three [useState] cells of the hook. *)
Record State := {
  conversations : list Conversation;
  currentConversationId : option JsString;
  isInitialized : bool
}.

Definition initialState : State :=
  {| conversations := []; currentConversationId := None; isInitialized := false |}.

(** *** State updates

    [setConversations] is always called with an updater function of the
    previous value (or with a constant).  The updater of
    [addMessageToConversation] calls [updateConversationTitle] while it
    runs, that is, it dispatches a further update from inside the updater.

    React keeps one queue of update objects per component.  When a setter is
    called while the component has no update pending, React computes the new
    state at once, from the state of the last render, and stores it in the
    update object; at the next render it takes that stored state in place of
    running the updater.  A setter called with the value the cell already
    has is then dropped.  When an update is already pending, the updater is
    kept and runs at the next render, on the state the queue has reached; an
    update dispatched by an updater that runs during the render is processed
    after the queue.

    Whether an update is pending when a handler is called depends on the
    render before and on the other state of the component that uses the
    hook; it is an input, [idle]. *)
Definition Updater := list Conversation -> list Conversation.

Inductive Dispatch :=
| SetConversations (f : list Conversation -> list Conversation * list Updater)
| SetCurrentConversationId (v : option JsString)
| SetIsInitialized (b : bool).

Definition pure_updater (f : Updater) : Dispatch :=
  SetConversations (fun prev => (f prev, [])).

(** An update object of the queue: an action still to run, or a state of
    the collection computed when the setter was called. *)
Inductive Update :=
| Pending (d : Dispatch)
| Computed (cs : list Conversation).

Definition same_id (a b : option JsString) : bool :=
  match a, b with
  | Some x, Some y => str_eqb x y
  | None, None => true
  | _, _ => false
  end.

(** The updates an updater dispatched while React ran it at once: the
    component is still idle for the first of them. *)
Definition enqueue_nested (last : list Conversation) (nested : list Updater)
  : list Update :=
  match nested with
  | [] => []
  | u :: us => Computed (u last) :: map (fun u' => Pending (pure_updater u')) us
  end.

(** A setter call: [last] is the state of the last render, the flag tells
    whether the component is idle, the list is its queue.  Every updater of
    the hook builds a new array, so a collection computed at the call is
    never the value the cell has and is never dropped. *)
Definition enqueue (last : State) (st : bool * list Update) (d : Dispatch)
  : bool * list Update :=
  let '(idle, q) := st in
  match d with
  | SetConversations f =>
      if idle then
        let '(cs, nested) := f (conversations last) in
        (false, q ++ enqueue_nested (conversations last) nested ++ [Computed cs])
      else (false, q ++ [Pending d])
  | SetCurrentConversationId v =>
      if idle && same_id v (currentConversationId last) then (true, q)
      else (false, q ++ [Pending d])
  | SetIsInitialized b =>
      if idle && Bool.eqb b (isInitialized last) then (true, q)
      else (false, q ++ [Pending d])
  end.

Fixpoint run_queue (q : list Update) (s : State) (late : list Updater)
  : State * list Updater :=
  match q with
  | [] => (s, late)
  | Computed cs :: q' =>
      run_queue q'
        {| conversations := cs;
           currentConversationId := currentConversationId s;
           isInitialized := isInitialized s |}
        late
  | Pending (SetConversations f) :: q' =>
      let '(cs, more) := f (conversations s) in
      run_queue q'
        {| conversations := cs;
           currentConversationId := currentConversationId s;
           isInitialized := isInitialized s |}
        (late ++ more)
  | Pending (SetCurrentConversationId v) :: q' =>
      run_queue q'
        {| conversations := conversations s;
           currentConversationId := v;
           isInitialized := isInitialized s |}
        late
  | Pending (SetIsInitialized b) :: q' =>
      run_queue q'
        {| conversations := conversations s;
           currentConversationId := currentConversationId s;
           isInitialized := b |}
        late
  end.

(** The state of the next render: the queue, then the updates dispatched
    by the updaters that ran during the render. *)
Definition commit (s : State) (q : list Update) : State :=
  let '(s', late) := run_queue q s [] in
  {| conversations := fold_left (fun cs u => u cs) late (conversations s');
     currentConversationId := currentConversationId s';
     isInitialized := isInitialized s' |}.

(** The setter calls of one handler or effect, in order. *)
Definition dispatch_all (last : State) (st : bool * list Update) (ds : list Dispatch)
  : bool * list Update :=
  fold_left (enqueue last) ds st.

(** *** The handlers, line by line *)

Definition newConversation (uuid : JsString) (now : Z) : Conversation :=
  {| id := uuid;
     title := lit "New Chat";
     messages := [];
     lastUpdated := TimeValue now;
     metaInformation := Some (lit "") |}.

(** [createNewConversation]: the queued updates and the returned id. *)
Definition createNewConversation (uuid : JsString) (now : Z)
  : list Dispatch * JsString :=
  let newConv := newConversation uuid now in
  ([ pure_updater (fun prev => newConv :: prev);
     SetCurrentConversationId (Some (id newConv)) ],
   id newConv).

Definition with_title (conv : Conversation) (t : JsString) : Conversation :=
  {| id := id conv; title := t; messages := messages conv;
     lastUpdated := lastUpdated conv; metaInformation := metaInformation conv |}.

Definition titleUpdater (conversationId t : JsString) : Updater :=
  map (fun conv =>
         if str_eqb (id conv) conversationId
         then with_title conv (if truthy (trim t) then t else lit "New Chat")
         else conv).

Definition updateConversationTitle (conversationId t : JsString) : list Dispatch :=
  [ pure_updater (titleUpdater conversationId t) ].

Definition updateConversationMetaInformation (conversationId meta : JsString)
  : list Dispatch :=
  [ pure_updater
      (map (fun conv =>
              if str_eqb (id conv) conversationId
              then {| id := id conv; title := title conv;
                      messages := messages conv;
                      lastUpdated := lastUpdated conv;
                      metaInformation := Some meta |}
              else conv)) ].

Definition id_is_not (conversationId : JsString) (conv : Conversation) : bool :=
  negb (str_eqb (id conv) conversationId).

Definition current_is (cur : option JsString) (conversationId : JsString) : bool :=
  match cur with
  | Some c => str_eqb c conversationId
  | None => false
  end.

(** [deleteConversation]: [conversations] and [currentConversationId] are
    the values of the render the handler was created in. *)
Definition deleteConversation (closure : State) (conversationId : JsString)
    (uuid : JsString) (now : Z) : list Dispatch :=
  pure_updater (filter (id_is_not conversationId))
  :: (if current_is (currentConversationId closure) conversationId then
        match filter (id_is_not conversationId) (conversations closure) with
        | first :: _ => [ SetCurrentConversationId (Some (id first)) ]
        | [] => fst (createNewConversation uuid now)
        end
      else []).

Definition derivedTitle (c : JsString) : JsString :=
  slice0 30 c ++ (if Nat.ltb 30 (List.length c) then lit "..." else lit "").

(** One element of the [map] inside [addMessageToConversation]: the new
    element, and the title updates it dispatched. *)
Definition addMessageEntry (conversationId : JsString) (message : Message)
    (now : Z) (conv : Conversation) : Conversation * list Updater :=
  if str_eqb (id conv) conversationId then
    let updatedMessages := messages conv ++ [message] in
    ({| id := id conv; title := title conv; messages := updatedMessages;
        lastUpdated := TimeValue now;
        metaInformation := metaInformation conv |},
     if Nat.eqb (List.length (messages conv)) 0 && role_eqb (role message) user
     then [ titleUpdater (id conv) (derivedTitle (content message)) ]
     else [])
  else (conv, []).

Definition addMessageToConversation (conversationId : JsString)
    (message : Message) (now : Z) : list Dispatch :=
  [ SetConversations (fun prev =>
      (map (fun conv => fst (addMessageEntry conversationId message now conv)) prev,
       flat_map (fun conv => snd (addMessageEntry conversationId message now conv)) prev)) ].

Definition clearConversations (confirmed : bool) (uuid : JsString) (now : Z)
  : list Dispatch :=
  if confirmed then
    pure_updater (fun _ => []) :: fst (createNewConversation uuid now)
  else [].

Definition clearCurrentConversation (closure : State) (confirmed : bool) (now : Z)
  : list Dispatch :=
  if confirmed then
    [ pure_updater
        (map (fun conv =>
                if current_is (currentConversationId closure) (id conv)
                then {| id := id conv; title := lit "New Chat"; messages := [];
                        lastUpdated := TimeValue now;
                        metaInformation := metaInformation conv |}
                else conv)) ]
  else [].

(** *** Persistence

    What [JSON.parse] reads back for one conversation written by
    [JSON.stringify]: the same fields, [lastUpdated] as ISO text or
    [null]. *)
Record SavedConversation := {
  saved_id : JsString;
  saved_title : JsString;
  saved_messages : list Message;
  saved_lastUpdated : option JsString;
  saved_metaInformation : option JsString
}.

(** The [conversations] key of [localStorage]; [None] when the key is
    absent or holds the empty string. *)
Definition Storage := option (list SavedConversation).

Definition jsonMessage (m : Message) : Message :=
  {| role := role m; content := content m; extra := jsonExtra (extra m) |}.

Definition stringify (conv : Conversation) : SavedConversation :=
  {| saved_id := id conv;
     saved_title := title conv;
     saved_messages := map jsonMessage (messages conv);
     saved_lastUpdated := toJSON (lastUpdated conv);
     saved_metaInformation := metaInformation conv |}.

(** The save effect. *)
Definition saveEffect (s : State) (store : Storage) : Storage :=
  if isInitialized s then Some (map stringify (conversations s)) else store.

Definition revive (conv : SavedConversation) : Conversation :=
  {| id := saved_id conv;
     title := saved_title conv;
     messages := saved_messages conv;
     lastUpdated := Date_of_json (saved_lastUpdated conv);
     metaInformation := saved_metaInformation conv |}.

(** The load effect. *)
Definition loadEffect (s : State) (store : Storage) (uuid : JsString) (now : Z)
  : list Dispatch :=
  if isInitialized s then []
  else
    (match store with
     | Some (first :: rest) =>
         [ pure_updater (fun _ => map revive (first :: rest));
           SetCurrentConversationId (Some (saved_id first)) ]
     | Some [] => fst (createNewConversation uuid now)
     | None => fst (createNewConversation uuid now)
     end) ++ [ SetIsInitialized true ].

(** *** Handler calls and renders *)

Inductive Op :=
| CreateNewConversation (uuid : JsString) (now : Z)
| SelectConversation (v : option JsString)
| UpdateConversationTitle (conversationId t : JsString)
| UpdateConversationMetaInformation (conversationId meta : JsString)
| DeleteConversation (conversationId uuid : JsString) (now : Z)
| AddMessageToConversation (conversationId : JsString) (message : Message) (now : Z)
| ClearConversations (confirmed : bool) (uuid : JsString) (now : Z)
| ClearCurrentConversation (confirmed : bool) (now : Z).

Definition handler (closure : State) (op : Op) : list Dispatch :=
  match op with
  | CreateNewConversation uuid now => fst (createNewConversation uuid now)
  | SelectConversation v => [ SetCurrentConversationId v ]
  | UpdateConversationTitle c t => updateConversationTitle c t
  | UpdateConversationMetaInformation c m => updateConversationMetaInformation c m
  | DeleteConversation c uuid now => deleteConversation closure c uuid now
  | AddMessageToConversation c m now => addMessageToConversation c m now
  | ClearConversations b uuid now => clearConversations b uuid now
  | ClearCurrentConversation b now => clearCurrentConversation closure b now
  end.

(** The handlers of one render are called, one after the other, before
    React renders again: they all close over the state of that render. *)
Definition render (closure : State) (idle : bool) (calls : list Op) : State :=
  commit closure
    (snd (fold_left (fun st op => dispatch_all closure st (handler closure op))
            calls (idle, []))).

(** One handler call, followed by a render. *)
Definition step (s : State) (idle : bool) (op : Op) : State := render s idle [op].

(** One handler call per render: each call is made from the render the call
    before it caused.  An entry of the trace is a call and whether the
    component was idle when it was made. *)
Definition run (s : State) (trace : list (bool * Op)) : State :=
  fold_left (fun s c => step s (fst c) (snd c)) trace s.

(** The first render after mounting: the load effect has run. *)
Definition initialize (store : Storage) (uuid : JsString) (now : Z) : State :=
  commit initialState
    (snd (dispatch_all initialState (true, [])
            (loadEffect initialState store uuid now))).

(** The current id names an entry of a non-empty collection. *)
Definition current_defined (s : State) : Prop :=
  conversations s <> [] /\
  exists conv, In conv (conversations s) /\ currentConversationId s = Some (id conv).

(** Every selection along the trace names an entry of the collection. *)
Fixpoint selects_known (s : State) (trace : list (bool * Op)) : Prop :=
  match trace with
  | [] => True
  | c :: trace' =>
      match snd c with
      | SelectConversation v =>
          exists conv, In conv (conversations s) /\ v = Some (id conv)
      | _ => True
      end /\ selects_known (step s (fst c) (snd c)) trace'
  end.

End Hook.

Arguments initialState {MessageExtra}.
Arguments newConversation {MessageExtra} uuid now.
Arguments createNewConversation {MessageExtra} uuid now.
Arguments titleUpdater {MessageExtra} conversationId t _.
Arguments updateConversationTitle {MessageExtra} conversationId t.
Arguments updateConversationMetaInformation {MessageExtra} conversationId meta.
Arguments clearConversations {MessageExtra} confirmed uuid now.
Arguments CreateNewConversation {MessageExtra} uuid now.
Arguments SelectConversation {MessageExtra} v.
Arguments UpdateConversationTitle {MessageExtra} conversationId t.
Arguments UpdateConversationMetaInformation {MessageExtra} conversationId meta.
Arguments DeleteConversation {MessageExtra} conversationId uuid now.
Arguments AddMessageToConversation {MessageExtra} conversationId message now.
Arguments ClearConversations {MessageExtra} confirmed uuid now.
Arguments ClearCurrentConversation {MessageExtra} confirmed now.
Arguments id_is_not {MessageExtra} conversationId conv.

End Conversations.

(* ================================================================= *)
(** ** Asynchronous handlers

    An [async] function is a computation over the state of its hook that
    either completes normally or throws; both ways it leaves a state behind.
    [try_catch] and [try_finally] are the statements of the same name. *)

Module Eff.

Inductive Completion (W A : Type) :=
| Normal (a : A) (w : W)
| Throws (e : Js.Thrown) (w : W).
Arguments Normal {W A} a w.
Arguments Throws {W A} e w.

Definition M (W A : Type) := W -> Completion W A.

Definition ret {W A} (a : A) : M W A := fun w => Normal a w.

Definition bind {W A B} (m : M W A) (k : A -> M W B) : M W B :=
  fun w => match m w with
           | Normal a w' => k a w'
           | Throws e w' => Throws e w'
           end.

Definition throw {W A} (e : Js.Thrown) : M W A := fun w => Throws e w.

Definition modify {W} (f : W -> W) : M W unit := fun w => Normal tt (f w).

Definition try_catch {W A} (body : M W A) (handler : Js.Thrown -> M W A) : M W A :=
  fun w => match body w with
           | Normal a w' => Normal a w'
           | Throws e w' => handler e w'
           end.

Definition try_finally {W A} (body : M W A) (finalizer : M W unit) : M W A :=
  fun w => match body w with
           | Normal a w' =>
               match finalizer w' with
               | Normal _ w'' => Normal a w''
               | Throws e w'' => Throws e w''
               end
           | Throws e w' =>
               match finalizer w' with
               | Normal _ w'' => Throws e w''
               | Throws e' w'' => Throws e' w''
               end
           end.

(** [for (const x of xs) body(x)] *)
Fixpoint for_of {W X} (xs : list X) (body : X -> M W unit) : M W unit :=
  match xs with
  | [] => ret tt
  | x :: xs' => bind (body x) (fun _ => for_of xs' body)
  end.

(** The state a computation leaves behind, however it completes. *)
Definition final {W A} (c : Completion W A) : W :=
  match c with Normal _ w => w | Throws _ w => w end.

(** A settled promise. *)
Inductive Outcome (A : Type) :=
| Fulfilled (a : A)
| Rejected (e : Js.Thrown).
Arguments Fulfilled {A} a.
Arguments Rejected {A} e.

Module Notations.
Notation "x <- m ;; k" := (bind m (fun x => k))
  (at level 61, m at next level, right associativity).
Notation "m ;; k" := (bind m (fun _ => k))
  (at level 61, right associativity).
End Notations.

End Eff.

(* ================================================================= *)
(** ** [useFileUpload]: the upload lifecycle manager *)

Module FileUpload.
Import Js Eff Eff.Notations.
Local Open Scope Z_scope.

Inductive DocumentCategory := general | technical | business | research | other.
Inductive ProcessingStatus := pending | processing | completed | failed.

Record UploadedFile := {
  id : JsString;
  name : JsString;
  size : Z;
  uploadDate : Date;
  success : bool;
  category : DocumentCategory;
  processingStatus : ProcessingStatus;
  documentId : option JsString   (* ID from the backend *)
}.

(** A browser [File], as far as the hook reads it. *)
Record File := { file_name : JsString; file_size : Z }.

(** Requests the hook sends. *)
Inductive Request :=
| PostUpload (file : File) (category : DocumentCategory)   (* POST UPLOAD_URL *)
| DeleteDocument (documentId : JsString).                  (* DELETE DELETE_URL/<id> *)

(** What the user (or a timer) can do while a handler is suspended at an
    [await], and between handler calls. *)
Inductive Event :=
| Elapse (ms : N)
| DeleteFile (fileId : JsString)
| UpdateFileCategory (fileId : JsString) (newCategory : DocumentCategory).

Record UploadData := { document_id : option JsString }.

Record Response := {
  ok : bool;
  json_meanwhile : list Event;     (* while [response.json()] is awaited *)
  json : Outcome UploadData
}.

Record Exchange := {
  fetch_meanwhile : list Event;    (* while [fetch] is awaited *)
  fetch_result : Outcome Response
}.

(** Traces of what the hook did to the outside and to its collection. *)
Inductive Effect :=
| Requested (r : Request)
| Inserted (fileId : JsString).

Record World := {
  uploadedFiles : list UploadedFile;
  isUploading : bool;
  timers : list (Z * JsString);    (* due time and the [newFileId] captured *)
  clock : Z;
  fetches : nat;                   (* calls of [fetch] so far *)
  uuids : nat;                     (* calls of [uuidv4] so far *)
  log : list Effect
}.

Definition with_files (f : list UploadedFile -> list UploadedFile) (w : World) : World :=
  {| uploadedFiles := f (uploadedFiles w); isUploading := isUploading w;
     timers := timers w; clock := clock w; fetches := fetches w;
     uuids := uuids w; log := log w |}.

Definition with_uploading (b : bool) (w : World) : World :=
  {| uploadedFiles := uploadedFiles w; isUploading := b;
     timers := timers w; clock := clock w; fetches := fetches w;
     uuids := uuids w; log := log w |}.

Definition with_timers (t : list (Z * JsString)) (w : World) : World :=
  {| uploadedFiles := uploadedFiles w; isUploading := isUploading w;
     timers := t; clock := clock w; fetches := fetches w;
     uuids := uuids w; log := log w |}.

Definition with_clock (c : Z) (w : World) : World :=
  {| uploadedFiles := uploadedFiles w; isUploading := isUploading w;
     timers := timers w; clock := c; fetches := fetches w;
     uuids := uuids w; log := log w |}.

Definition logged (e : Effect) (w : World) : World :=
  {| uploadedFiles := uploadedFiles w; isUploading := isUploading w;
     timers := timers w; clock := clock w; fetches := fetches w;
     uuids := uuids w; log := log w ++ [e] |}.

Definition next_fetch (w : World) : World :=
  {| uploadedFiles := uploadedFiles w; isUploading := isUploading w;
     timers := timers w; clock := clock w; fetches := S (fetches w);
     uuids := uuids w; log := log w |}.

Definition next_uuid (w : World) : World :=
  {| uploadedFiles := uploadedFiles w; isUploading := isUploading w;
     timers := timers w; clock := clock w; fetches := fetches w;
     uuids := S (uuids w); log := log w |}.

(** *** Synchronous handlers and the timer callback *)

Definition has_id (fileId : JsString) (f : UploadedFile) : bool := str_eqb (id f) fileId.

(** [prev => prev.filter(file => file.id !== fileId)] *)
Definition deleteFile (fileId : JsString) : World -> World :=
  with_files (filter (fun f => negb (has_id fileId f))).

Definition with_category (c : DocumentCategory) (f : UploadedFile) : UploadedFile :=
  {| id := id f; name := name f; size := size f; uploadDate := uploadDate f;
     success := success f; category := c;
     processingStatus := processingStatus f; documentId := documentId f |}.

Definition updateFileCategory (fileId : JsString) (newCategory : DocumentCategory)
  : World -> World :=
  with_files (map (fun f => if has_id fileId f then with_category newCategory f else f)).

Definition with_status (st : ProcessingStatus) (f : UploadedFile) : UploadedFile :=
  {| id := id f; name := name f; size := size f; uploadDate := uploadDate f;
     success := success f; category := category f;
     processingStatus := st; documentId := documentId f |}.

(** The callback handed to [setTimeout], closed over [newFileId]. *)
Definition completion (newFileId : JsString) : World -> World :=
  with_files (map (fun f => if has_id newFileId f then with_status completed f else f)).

Definition category_eqb (a b : DocumentCategory) : bool :=
  match a, b with
  | general, general | technical, technical | business, business
  | research, research | other, other => true
  | _, _ => false
  end.

(** [getFilesByCategory]; [None] is the argument ['all']. *)
Definition getFilesByCategory (c : option DocumentCategory) (w : World)
  : list UploadedFile :=
  match c with
  | None => uploadedFiles w
  | Some c => filter (fun f => category_eqb (category f) c) (uploadedFiles w)
  end.

(** *** Time and events *)

Definition due (now : Z) (t : Z * JsString) : bool := fst t <=? now.

(** Run the callbacks that are due, in the order they were scheduled. *)
Definition fire_due (w : World) : World :=
  let ready := filter (due (clock w)) (timers w) in
  let waiting := filter (fun t => negb (due (clock w) t)) (timers w) in
  fold_left (fun w t => completion (snd t) w) ready (with_timers waiting w).

Definition happen (e : Event) (w : World) : World :=
  match e with
  | Elapse ms => fire_due (with_clock (clock w + Z.of_N ms) w)
  | DeleteFile fileId => deleteFile fileId w
  | UpdateFileCategory fileId c => updateFileCategory fileId c w
  end.

Definition happen_all (es : list Event) (w : World) : World :=
  fold_left (fun w e => happen e w) es w.

Section Environment.

(** The [k]-th value [uuidv4()] returns, and the way the [k]-th [fetch]
    goes. *)
Variable uuidv4 : nat -> JsString.
Variable network : nat -> Exchange.

Definition call_uuidv4 : M World JsString :=
  fun w => Normal (uuidv4 (uuids w)) (next_uuid w).

Definition new_Date : M World Date :=
  fun w => Normal (TimeValue (clock w)) w.

Definition fetch (r : Request) : M World Response :=
  fun w =>
    let ex := network (fetches w) in
    let w' := happen_all (fetch_meanwhile ex) (next_fetch (logged (Requested r) w)) in
    match fetch_result ex with
    | Fulfilled resp => Normal resp w'
    | Rejected e => Throws e w'
    end.

Definition response_json (resp : Response) : M World UploadData :=
  fun w =>
    let w' := happen_all (json_meanwhile resp) w in
    match json resp with
    | Fulfilled d => Normal d w'
    | Rejected e => Throws e w'
    end.

Definition setUploadedFiles (f : list UploadedFile -> list UploadedFile)
  : M World unit := modify (with_files f).

Definition setIsUploading (b : bool) : M World unit := modify (with_uploading b).

Definition setTimeout (newFileId : JsString) (delay : Z) : M World unit :=
  modify (fun w => with_timers (timers w ++ [(clock w + delay, newFileId)]) w).

Definition trace (e : Effect) : M World unit := modify (logged e).

Definition failedEntry (fileId : JsString) (file : File) (now : Date)
    (cat : DocumentCategory) : UploadedFile :=
  {| id := fileId; name := file_name file; size := file_size file;
     uploadDate := now; success := false; category := cat;
     processingStatus := failed; documentId := None |}.

Definition insertFailed (file : File) (cat : DocumentCategory) : M World unit :=
  fileId <- call_uuidv4 ;;
  now <- new_Date ;;
  setUploadedFiles (fun prev => failedEntry fileId file now cat :: prev) ;;
  trace (Inserted fileId).

(** The body of the [for] loop of [uploadFiles]. *)
Definition uploadOne (cat : DocumentCategory) (file : File) : M World unit :=
  try_catch
    (response <- fetch (PostUpload file cat) ;;
     data <- response_json response ;;
     if ok response then
       newFileId <- call_uuidv4 ;;
       now <- new_Date ;;
       setUploadedFiles (fun prev =>
         {| id := newFileId; name := file_name file; size := file_size file;
            uploadDate := now; success := true; category := cat;
            processingStatus := processing;
            documentId := document_id data |} :: prev) ;;
       trace (Inserted newFileId) ;;
       setTimeout newFileId 3000
     else
       insertFailed file cat)
    (fun error => insertFailed file cat).

(** [uploadFiles(files, category)]; [None] is a [null] file list. *)
Definition uploadFiles (files : option (list File)) (cat : DocumentCategory)
  : M World unit :=
  match files with
  | None => ret tt
  | Some fileArray =>
      setIsUploading true ;;
      for_of fileArray (uploadOne cat) ;;
      setIsUploading false
  end.

(** [deleteFileFromKnowledgeBase]: [uploadedFiles] is read when the
    handler is called; [!file.documentId] also holds for the empty
    string. *)
Definition deleteFileFromKnowledgeBase (fileId : JsString) : M World unit :=
  fun w =>
    match find (has_id fileId) (uploadedFiles w) with
    | None => modify (deleteFile fileId) w
    | Some file =>
        match documentId file with
        | None => modify (deleteFile fileId) w
        | Some docId =>
            if negb (truthy docId) then modify (deleteFile fileId) w
            else
              try_catch
                (response <- fetch (DeleteDocument docId) ;;
                 if ok response then modify (deleteFile fileId)
                 else ret tt)
                (fun error => ret tt) w
        end
    end.

(** Handler calls and events, in the order they start. *)
Inductive Action :=
| Happens (e : Event)
| CallUploadFiles (files : option (list File)) (cat : DocumentCategory)
| CallDeleteFileFromKnowledgeBase (fileId : JsString).

Definition act (a : Action) (w : World) : World :=
  match a with
  | Happens e => happen e w
  | CallUploadFiles files cat => final (uploadFiles files cat w)
  | CallDeleteFileFromKnowledgeBase fileId => final (deleteFileFromKnowledgeBase fileId w)
  end.

Definition act_all (acts : list Action) (w : World) : World :=
  fold_left (fun w a => act a w) acts w.

End Environment.
End FileUpload.

(* ================================================================= *)
(** ** [useFileList]: the knowledge-base listing *)

Module FileList.
Import Js Eff Eff.Notations.

Record FileEntry := { entry_id : JsString; entry_name : JsString }.

Record FileListResponse := { files_of : list FileEntry; total_files : Z }.

Record KnowledgeBaseFile := {
  id : JsString;
  name : JsString;
  originalName : JsString;
  dateAdded : option JsString
}.

Record Response := { ok : bool; json : Outcome FileListResponse }.

Record World := {
  files : list KnowledgeBaseFile;
  isLoading : bool;
  error : option JsString;
  dates : nat                      (* calls of [new Date()] so far *)
}.

Definition with_files (l : list KnowledgeBaseFile) (w : World) : World :=
  {| files := l; isLoading := isLoading w; error := error w; dates := dates w |}.

Definition with_loading (b : bool) (w : World) : World :=
  {| files := files w; isLoading := b; error := error w; dates := dates w |}.

Definition with_error (e : option JsString) (w : World) : World :=
  {| files := files w; isLoading := isLoading w; error := e; dates := dates w |}.

Section Environment.

(** The time the [k]-th [new Date()] reads. *)
Variable clock : nat -> Z.

Definition new_Date : M World Z :=
  fun w => Normal (clock (dates w))
             {| files := files w; isLoading := isLoading w;
                error := error w; dates := S (dates w) |}.

Definition processFileEntry (entry : FileEntry) : M World KnowledgeBaseFile :=
  now <- new_Date ;;
  ret {| id := entry_id entry;
         name := entry_name entry;
         originalName := entry_name entry;
         dateAdded := Some (toISOString now) |}.

(** [xs.map(f)] for an [f] that reads the clock. *)
Fixpoint map_entries (xs : list FileEntry) : M World (list KnowledgeBaseFile) :=
  match xs with
  | [] => ret []
  | x :: xs' =>
      y <- processFileEntry x ;;
      ys <- map_entries xs' ;;
      ret (y :: ys)
  end.

Definition await {A} (p : Outcome A) : M World A :=
  match p with
  | Fulfilled a => ret a
  | Rejected e => throw e
  end.

Definition setFiles (l : list KnowledgeBaseFile) : M World unit := modify (with_files l).
Definition setIsLoading (b : bool) : M World unit := modify (with_loading b).
Definition setError (e : option JsString) : M World unit := modify (with_error e).

(** [err instanceof Error ? err.message : 'An error occurred'] *)
Definition message_of (err : Thrown) : JsString :=
  match err with
  | ErrorObject m => m
  | OtherValue => lit "An error occurred"
  end.

(** [fetchFiles], given how the request to [/documents/files] goes. *)
Definition fetchFiles (exchange : Outcome Response) : M World unit :=
  try_finally
    (try_catch
       (setIsLoading true ;;
        response <- await exchange ;;
        (if negb (ok response)
         then throw (ErrorObject (lit "Failed to fetch files"))
         else ret tt) ;;
        data <- await (json response) ;;
        processedFiles <- map_entries (files_of data) ;;
        setFiles processedFiles ;;
        setError None)
       (fun err =>
          setError (Some (message_of err)) ;;
          setFiles []))
    (setIsLoading false).

End Environment.
End FileList.

(* ================================================================= *)
(** ** Properties of the conversation session manager *)

Module ConversationFacts.
Import Js Conversations.

Section Facts.
Variable X : Type.
Implicit Types (s : State X) (conv : Conversation X) (cs : list (Conversation X)).

(** *** What one handler call does to the next render *)

Lemma commit_nil s : commit s [] = s.
Proof. destruct s; reflexivity. Qed.

Lemma same_id_eq (a b : option JsString) : same_id a b = true -> a = b.
Proof.
  destruct a as [x|], b as [y|]; simpl; intros H; try discriminate.
  - apply str_eqb_eq in H. congruence.
  - reflexivity.
Qed.

(** A state computed when the setter was called replaces whatever the
    queue has reached. *)
Lemma run_queue_pure (us : list (Updater X)) cs : forall s,
  run_queue (map (fun u => Pending (pure_updater u)) us ++ [Computed cs]) s [] =
  ({| conversations := cs;
      currentConversationId := currentConversationId s;
      isInitialized := isInitialized s |}, []).
Proof.
  induction us as [|u us IH]; intros s; simpl.
  - reflexivity.
  - rewrite IH. reflexivity.
Qed.

Lemma run_queue_nested (last : list (Conversation X)) (nested : list (Updater X)) cs s :
  run_queue (enqueue_nested last nested ++ [Computed cs]) s [] =
  ({| conversations := cs;
      currentConversationId := currentConversationId s;
      isInitialized := isInitialized s |}, []).
Proof.
  destruct nested as [|u us]; simpl.
  - reflexivity.
  - rewrite run_queue_pure. reflexivity.
Qed.

Lemma step_create s idle uuid now :
  step s idle (CreateNewConversation uuid now) =
  {| conversations := newConversation uuid now :: conversations s;
     currentConversationId := Some uuid;
     isInitialized := isInitialized s |}.
Proof. destruct idle; reflexivity. Qed.

(** Selecting the id that is current on an idle component is dropped by
    React; the state of the next render is the same either way. *)
Lemma step_select s idle v :
  step s idle (SelectConversation v) =
  {| conversations := conversations s;
     currentConversationId := v;
     isInitialized := isInitialized s |}.
Proof.
  destruct idle; [|reflexivity].
  unfold step, render, dispatch_all, handler, fold_left, enqueue.
  rewrite andb_true_l.
  destruct (same_id v (currentConversationId s)) eqn:E; [|reflexivity].
  apply same_id_eq in E. subst v. destruct s; reflexivity.
Qed.

Lemma step_title s idle c t :
  step s idle (UpdateConversationTitle c t) =
  {| conversations := titleUpdater c t (conversations s);
     currentConversationId := currentConversationId s;
     isInitialized := isInitialized s |}.
Proof. destruct idle; reflexivity. Qed.

Lemma step_meta s idle c meta :
  step s idle (UpdateConversationMetaInformation c meta) =
  {| conversations :=
       map (fun conv =>
              if str_eqb (id conv) c
              then {| id := id conv; title := title conv;
                      messages := messages conv;
                      lastUpdated := lastUpdated conv;
                      metaInformation := Some meta |}
              else conv) (conversations s);
     currentConversationId := currentConversationId s;
     isInitialized := isInitialized s |}.
Proof. destruct idle; reflexivity. Qed.

Lemma step_clear_all s idle uuid now :
  step s idle (ClearConversations true uuid now) =
  {| conversations := [newConversation uuid now];
     currentConversationId := Some uuid;
     isInitialized := isInitialized s |}.
Proof. destruct idle; reflexivity. Qed.

Lemma step_declined_clear_all s idle uuid now :
  step s idle (ClearConversations false uuid now) = s.
Proof. apply commit_nil. Qed.

Lemma step_clear_current s idle now :
  step s idle (ClearCurrentConversation true now) =
  {| conversations :=
       map (fun conv =>
              if current_is (currentConversationId s) (id conv)
              then {| id := id conv; title := lit "New Chat"; messages := [];
                      lastUpdated := TimeValue now;
                      metaInformation := metaInformation conv |}
              else conv) (conversations s);
     currentConversationId := currentConversationId s;
     isInitialized := isInitialized s |}.
Proof. destruct idle; reflexivity. Qed.

Lemma step_declined_clear_current s idle now :
  step s idle (ClearCurrentConversation false now) = s.
Proof. apply commit_nil. Qed.

Lemma step_delete_other s idle c uuid now :
  current_is (currentConversationId s) c = false ->
  step s idle (DeleteConversation c uuid now) =
  {| conversations := filter (id_is_not c) (conversations s);
     currentConversationId := currentConversationId s;
     isInitialized := isInitialized s |}.
Proof.
  intros H. unfold step, render; cbn [fold_left]; unfold handler, deleteConversation. rewrite H.
  destruct idle; reflexivity.
Qed.

Lemma step_delete_current_some s idle c uuid now first rest :
  current_is (currentConversationId s) c = true ->
  filter (id_is_not c) (conversations s) = first :: rest ->
  step s idle (DeleteConversation c uuid now) =
  {| conversations := first :: rest;
     currentConversationId := Some (id first);
     isInitialized := isInitialized s |}.
Proof.
  intros H E. unfold step, render; cbn [fold_left]; unfold handler, deleteConversation. rewrite H, E.
  destruct idle; unfold commit; simpl; rewrite E; reflexivity.
Qed.

Lemma step_delete_current_last s idle c uuid now :
  current_is (currentConversationId s) c = true ->
  filter (id_is_not c) (conversations s) = [] ->
  step s idle (DeleteConversation c uuid now) =
  {| conversations := [newConversation uuid now];
     currentConversationId := Some uuid;
     isInitialized := isInitialized s |}.
Proof.
  intros H E. unfold step, render; cbn [fold_left]; unfold handler, deleteConversation. rewrite H, E.
  destruct idle; unfold commit; simpl; rewrite E; reflexivity.
Qed.

(** *** Identifiers are stable under the in-place edits *)

Definition ids cs : list JsString := map (@id X) cs.

Lemma ids_map (f : Conversation X -> Conversation X) cs :
  (forall conv, id (f conv) = id conv) -> ids (map f cs) = ids cs.
Proof.
  intros H. unfold ids. rewrite map_map. apply map_ext. exact H.
Qed.

Lemma ids_titleUpdater c t cs : ids (titleUpdater c t cs) = ids cs.
Proof.
  apply ids_map. intros conv. destruct (str_eqb (id conv) c); reflexivity.
Qed.

Lemma ids_fold_titles (us : list (Updater X)) :
  (forall u, In u us -> exists c t, u = titleUpdater c t) ->
  forall cs, ids (fold_left (fun cs u => u cs) us cs) = ids cs.
Proof.
  induction us as [|u us IH]; intros H cs; simpl.
  - reflexivity.
  - rewrite IH by (intros u' Hu'; apply H; right; exact Hu').
    destruct (H u (or_introl eq_refl)) as (c & t & ->).
    apply ids_titleUpdater.
Qed.

Lemma addMessageEntry_id c m now conv :
  id (fst (addMessageEntry c m now conv)) = id conv.
Proof.
  unfold addMessageEntry. destruct (str_eqb (id conv) c); reflexivity.
Qed.

Lemma addMessageEntry_dispatches c m now conv u :
  In u (snd (addMessageEntry c m now conv)) ->
  u = titleUpdater c (derivedTitle (content m)) /\
  id conv = c /\ messages conv = [] /\ role m = user.
Proof.
  unfold addMessageEntry.
  destruct (str_eqb (id conv) c) eqn:E; simpl; [|tauto].
  apply str_eqb_eq in E.
  destruct (messages conv) as [|m0 ms] eqn:Em; simpl; [|tauto].
  destruct (role m); simpl; [|tauto].
  intros [<-|[]]. rewrite E. auto.
Qed.

(** The updater runs during the render: the title updates it dispatches
    are applied after it. *)
Lemma step_add s c m now :
  step s false (AddMessageToConversation c m now) =
  {| conversations :=
       fold_left (fun cs u => u cs)
         (flat_map (fun conv => snd (addMessageEntry c m now conv)) (conversations s))
         (map (fun conv => fst (addMessageEntry c m now conv)) (conversations s));
     currentConversationId := currentConversationId s;
     isInitialized := isInitialized s |}.
Proof. reflexivity. Qed.

(** The updater runs when the handler is called: the title updates it
    dispatches are queued before the state it returns, which replaces
    them. *)
Lemma step_add_idle s c m now :
  step s true (AddMessageToConversation c m now) =
  {| conversations :=
       map (fun conv => fst (addMessageEntry c m now conv)) (conversations s);
     currentConversationId := currentConversationId s;
     isInitialized := isInitialized s |}.
Proof.
  unfold step, render, dispatch_all, handler, addMessageToConversation,
    fold_left, enqueue, commit, snd.
  rewrite app_nil_l, run_queue_nested. reflexivity.
Qed.

Lemma step_ids_stable s idle op :
  match op with
  | UpdateConversationTitle _ _ | UpdateConversationMetaInformation _ _
  | AddMessageToConversation _ _ _ | ClearCurrentConversation _ _ => True
  | _ => False
  end ->
  ids (conversations (step s idle op)) = ids (conversations s) /\
  currentConversationId (step s idle op) = currentConversationId s.
Proof.
  destruct op as [u n|v|c t|c mi|c u n|c m n|b u n|b n]; intros H; try contradiction.
  - rewrite step_title; simpl. split; [apply ids_titleUpdater | reflexivity].
  - rewrite step_meta; simpl. split; [|reflexivity].
    apply ids_map. intros conv. destruct (str_eqb (id conv) c); reflexivity.
  - destruct idle.
    + rewrite step_add_idle; simpl. split; [|reflexivity].
      apply ids_map. intros conv. apply addMessageEntry_id.
    + rewrite step_add; simpl. split; [|reflexivity].
      rewrite ids_fold_titles.
      * apply ids_map. intros conv. apply addMessageEntry_id.
      * intros u Hu. apply in_flat_map in Hu. destruct Hu as (conv & _ & Hu).
        apply addMessageEntry_dispatches in Hu. destruct Hu as (-> & _).
        eauto.
  - destruct b.
    + rewrite step_clear_current; simpl. split; [|reflexivity].
      apply ids_map. intros conv.
      destruct (current_is (currentConversationId s) (id conv)); reflexivity.
    + rewrite step_declined_clear_current. auto.
Qed.

(** *** The current id names an entry *)

Lemma current_defined_ids s :
  current_defined s <->
  exists cur, currentConversationId s = Some cur /\ In cur (ids (conversations s)).
Proof.
  unfold current_defined, ids. split.
  - intros (_ & conv & Hin & Hcur). exists (id conv). split; [exact Hcur|].
    apply in_map. exact Hin.
  - intros (cur & Hcur & Hin). apply in_map_iff in Hin.
    destruct Hin as (conv & <- & Hin). split.
    + intros E. rewrite E in Hin. exact Hin.
    + exists conv. auto.
Qed.

Lemma in_ids_filter c cur cs :
  cur <> c -> In cur (ids cs) -> In cur (ids (filter (id_is_not c) cs)).
Proof.
  unfold ids. intros Hne Hin. apply in_map_iff in Hin.
  destruct Hin as (conv & <- & Hin). apply in_map. apply filter_In.
  split; [exact Hin|]. unfold id_is_not. apply negb_true_iff.
  apply str_eqb_neq. exact Hne.
Qed.

(** Deleting the conversation that is current always leaves a defined
    current id, whatever the state before. *)
Lemma delete_current s idle c uuid now :
  currentConversationId s = Some c ->
  let s' := step s idle (DeleteConversation c uuid now) in
  current_defined s' /\
  match filter (id_is_not c) (conversations s) with
  | first :: rest =>
      conversations s' = first :: rest /\
      currentConversationId s' = Some (id first)
  | [] =>
      conversations s' = [newConversation uuid now] /\
      currentConversationId s' = Some uuid
  end.
Proof.
  intros Hcur s'.
  assert (Hc : current_is (currentConversationId s) c = true)
    by (rewrite Hcur; simpl; apply str_eqb_refl).
  subst s'. destruct (filter (id_is_not c) (conversations s)) as [|first rest] eqn:E.
  - rewrite (step_delete_current_last _ idle _ uuid now Hc E). simpl. split; [|auto].
    split; [discriminate|]. exists (newConversation uuid now). simpl; auto.
  - rewrite (step_delete_current_some _ idle _ uuid now Hc E). simpl. split; [|auto].
    split; [discriminate|]. exists first. simpl; auto.
Qed.

Lemma step_current_defined s idle op :
  current_defined s ->
  match op with
  | SelectConversation v =>
      exists conv, In conv (conversations s) /\ v = Some (id conv)
  | _ => True
  end ->
  current_defined (step s idle op).
Proof.
  intros Hs Hop.
  destruct op as [u n|v|c t|c mi|c u n|c m n|b u n|b n].
  - rewrite step_create. split; [discriminate|].
    exists (newConversation u n). simpl; auto.
  - rewrite step_select. destruct Hop as (conv & Hin & ->).
    split; [apply Hs|]. exists conv. simpl; auto.
  - apply current_defined_ids. apply current_defined_ids in Hs.
    destruct (step_ids_stable s idle (UpdateConversationTitle c t) I) as [-> ->]. exact Hs.
  - apply current_defined_ids. apply current_defined_ids in Hs.
    destruct (step_ids_stable s idle (UpdateConversationMetaInformation c mi) I) as [-> ->].
    exact Hs.
  - destruct (current_is (currentConversationId s) c) eqn:Hc.
    + destruct (currentConversationId s) as [cur|] eqn:Hcur; [|discriminate].
      simpl in Hc. apply str_eqb_eq in Hc. subst cur.
      apply (delete_current _ idle u n Hcur).
    + rewrite (step_delete_other _ idle _ u n Hc).
      apply current_defined_ids. apply current_defined_ids in Hs.
      destruct Hs as (cur & Hcur & Hin). exists cur. simpl. split; [exact Hcur|].
      apply in_ids_filter; [|exact Hin].
      rewrite Hcur in Hc. simpl in Hc. apply str_eqb_neq. exact Hc.
  - apply current_defined_ids. apply current_defined_ids in Hs.
    destruct (step_ids_stable s idle (AddMessageToConversation c m n) I) as [-> ->].
    exact Hs.
  - destruct b.
    + rewrite step_clear_all. split; [discriminate|].
      exists (newConversation u n). simpl; auto.
    + rewrite step_declined_clear_all. exact Hs.
  - apply current_defined_ids. apply current_defined_ids in Hs.
    destruct (step_ids_stable s idle (ClearCurrentConversation b n) I) as [-> ->].
    exact Hs.
Qed.

Lemma run_current_defined (trace : list (bool * Op X)) : forall s,
  current_defined s -> selects_known s trace -> current_defined (run s trace).
Proof.
  induction trace as [|[idle op] trace IH]; intros s Hs Hk; simpl.
  - exact Hs.
  - destruct Hk as [Hop Hk]. apply IH; [|exact Hk].
    apply step_current_defined; assumption.
Qed.

Lemma initialize_current_defined (store : Storage X) uuid now :
  current_defined (initialize store uuid now).
Proof.
  destruct store as [[|first rest]|]; unfold initialize; simpl.
  - split; [discriminate|]. exists (newConversation uuid now). simpl; auto.
  - split; [discriminate|]. exists (revive first). simpl; auto.
  - split; [discriminate|]. exists (newConversation uuid now). simpl; auto.
Qed.

Lemma initialize_isInitialized (store : Storage X) uuid now :
  isInitialized (initialize store uuid now) = true.
Proof. destruct store as [[|first rest]|]; reflexivity. Qed.

(** *** Automatic titles *)

(** The title the specification describes for a first user message. *)
Definition autoTitle (c : JsString) : JsString :=
  let derived :=
    if Nat.leb (List.length c) 30 then c else firstn 30 c ++ lit "..." in
  if truthy (trim derived) then derived else lit "New Chat".

Lemma derivedTitle_spec (c : JsString) :
  derivedTitle c = if Nat.leb (List.length c) 30 then c else firstn 30 c ++ lit "...".
Proof.
  unfold derivedTitle, slice0.
  destruct (Nat.leb (List.length c) 30) eqn:E.
  - apply Nat.leb_le in E.
    replace (Nat.ltb 30 (List.length c)) with false
      by (symmetry; apply Nat.ltb_ge; exact E).
    rewrite firstn_all2 by exact E. apply app_nil_r.
  - apply Nat.leb_gt in E.
    replace (Nat.ltb 30 (List.length c)) with true
      by (symmetry; apply Nat.ltb_lt; exact E).
    reflexivity.
Qed.

Lemma titleUpdater_idempotent c t cs :
  titleUpdater c t (titleUpdater c t cs) = titleUpdater c t cs.
Proof.
  unfold titleUpdater. rewrite map_map. apply map_ext. intros conv.
  destruct (str_eqb (id conv) c) eqn:E; simpl; rewrite E; reflexivity.
Qed.

Lemma fold_repeated (f : Updater X) (us : list (Updater X)) cs :
  (forall u, In u us -> u = f) ->
  (forall cs, f (f cs) = f cs) ->
  fold_left (fun cs u => u cs) us cs =
  match us with [] => cs | _ :: _ => f cs end.
Proof.
  intros Hall Hidem. destruct us as [|u us]; [reflexivity|].
  simpl. rewrite (Hall u (or_introl eq_refl)).
  assert (Hrest : forall u', In u' us -> u' = f)
    by (intros u' Hu'; apply Hall; right; exact Hu').
  clear Hall. revert cs. induction us as [|u' us IH]; intros cs; simpl.
  - reflexivity.
  - rewrite (Hrest u' (or_introl eq_refl)). rewrite Hidem.
    apply IH. intros u'' Hu''. apply Hrest. right; exact Hu''.
Qed.

Lemma unique_by_id cs conv conv' :
  NoDup (ids cs) -> In conv cs -> In conv' cs -> id conv = id conv' -> conv = conv'.
Proof.
  unfold ids. induction cs as [|c0 cs IH]; simpl; intros Hnd Hin Hin' Hid.
  - contradiction.
  - inversion Hnd as [|? ? Hnotin Hnd']; subst.
    destruct Hin as [->|Hin], Hin' as [->|Hin'].
    + reflexivity.
    + exfalso. apply Hnotin. rewrite Hid. apply in_map. exact Hin'.
    + exfalso. apply Hnotin. rewrite <- Hid. apply in_map. exact Hin.
    + apply IH; assumption.
Qed.

(** The collection after [addMessageToConversation] when the updater runs
    during the render, in closed form. *)
Lemma step_add_conversations s c m now :
  conversations (step s false (AddMessageToConversation c m now)) =
  let appended := map (fun conv => fst (addMessageEntry c m now conv)) (conversations s) in
  match flat_map (fun conv => snd (addMessageEntry c m now conv)) (conversations s) with
  | [] => appended
  | _ :: _ => titleUpdater c (derivedTitle (content m)) appended
  end.
Proof.
  rewrite step_add. simpl.
  apply fold_repeated.
  - intros u Hu. apply in_flat_map in Hu. destruct Hu as (conv & _ & Hu).
    apply addMessageEntry_dispatches in Hu. apply Hu.
  - apply titleUpdater_idempotent.
Qed.

Lemma add_first_user_message s c m now n conv :
  NoDup (ids (conversations s)) ->
  nth_error (conversations s) n = Some conv ->
  id conv = c ->
  exists conv',
    nth_error (conversations (step s false (AddMessageToConversation c m now))) n = Some conv' /\
    id conv' = c /\
    messages conv' = messages conv ++ [m] /\
    lastUpdated conv' = TimeValue now /\
    title conv' =
      match messages conv, role m with
      | [], user => autoTitle (content m)
      | _, _ => title conv
      end.
Proof.
  intros Hnd Hn Hid.
  assert (Hin : In conv (conversations s)) by (eapply nth_error_In; exact Hn).
  assert (Hc : str_eqb (id conv) c = true) by (apply str_eqb_eq; exact Hid).
  rewrite step_add_conversations. cbv zeta.
  destruct (flat_map (fun conv0 => snd (addMessageEntry c m now conv0)) (conversations s))
    as [|u us] eqn:E.
  - (* no title was dispatched: this conversation is not empty, or the
       message is not a user message *)
    eexists. split; [apply map_nth_error; exact Hn|].
    unfold addMessageEntry. rewrite Hc. simpl.
    repeat split; try assumption.
    destruct (messages conv) as [|m0 ms] eqn:Em; [|reflexivity].
    destruct (role m) eqn:Er; [|reflexivity].
    exfalso.
    assert (Hu : In (titleUpdater c (derivedTitle (content m)))
                   (flat_map (fun conv0 => snd (addMessageEntry c m now conv0))
                      (conversations s))).
    { apply in_flat_map. exists conv. split; [exact Hin|].
      unfold addMessageEntry. rewrite Hc, Em, Er. simpl. rewrite Hid. auto. }
    rewrite E in Hu. exact Hu.
  - assert (Hu : In u (flat_map (fun conv0 => snd (addMessageEntry c m now conv0))
                         (conversations s))) by (rewrite E; left; reflexivity).
    apply in_flat_map in Hu. destruct Hu as (conv0 & Hin0 & Hu).
    apply addMessageEntry_dispatches in Hu.
    destruct Hu as (_ & Hid0 & Hm0 & Hr0).
    assert (conv0 = conv)
      by (apply (unique_by_id _ _ _ Hnd Hin0 Hin); congruence).
    subst conv0.
    eexists. split.
    + unfold titleUpdater. apply map_nth_error. apply map_nth_error. exact Hn.
    + rewrite addMessageEntry_id, Hc.
      unfold addMessageEntry. rewrite Hc. simpl.
      repeat split; try assumption.
      rewrite Hm0, Hr0. unfold autoTitle. rewrite <- derivedTitle_spec. reflexivity.
Qed.

(** On an idle component the message is appended and the title stays. *)
Lemma add_message_idle s c m now n conv :
  nth_error (conversations s) n = Some conv ->
  id conv = c ->
  exists conv',
    nth_error (conversations (step s true (AddMessageToConversation c m now))) n = Some conv' /\
    id conv' = c /\
    messages conv' = messages conv ++ [m] /\
    lastUpdated conv' = TimeValue now /\
    title conv' = title conv.
Proof.
  intros Hn Hid.
  assert (Hc : str_eqb (id conv) c = true) by (apply str_eqb_eq; exact Hid).
  rewrite step_add_idle. simpl.
  eexists. split; [apply map_nth_error; exact Hn|].
  unfold addMessageEntry. rewrite Hc. simpl. auto.
Qed.

(** *** Handlers given an id no conversation has *)

Lemma map_unmatched (f : Conversation X -> Conversation X) c cs :
  (forall conv, In conv cs -> id conv <> c) ->
  map (fun conv => if str_eqb (id conv) c then f conv else conv) cs = cs.
Proof.
  intros H. rewrite <- (map_id cs) at 2. apply map_ext_in.
  intros conv Hin. apply H in Hin. apply str_eqb_neq in Hin.
  rewrite Hin. reflexivity.
Qed.

Lemma unknown_conversation_id s c :
  (forall conv, In conv (conversations s) -> id conv <> c) ->
  (forall idle t,
      conversations (step s idle (UpdateConversationTitle c t)) = conversations s) /\
  (forall idle meta,
      conversations (step s idle (UpdateConversationMetaInformation c meta)) =
      conversations s) /\
  (forall idle m now,
      conversations (step s idle (AddMessageToConversation c m now)) = conversations s).
Proof.
  intros H. split; [|split].
  - intros idle t. rewrite step_title. simpl. unfold titleUpdater.
    apply map_unmatched. exact H.
  - intros idle meta. rewrite step_meta; simpl.
    apply (map_unmatched (fun conv =>
             {| id := id conv; title := title conv; messages := messages conv;
                lastUpdated := lastUpdated conv; metaInformation := Some meta |})).
    exact H.
  - intros idle m now.
    assert (Hentry : forall conv, In conv (conversations s) ->
              addMessageEntry c m now conv = (conv, [])).
    { intros conv Hin. unfold addMessageEntry.
      apply H in Hin. apply str_eqb_neq in Hin. rewrite Hin. reflexivity. }
    destruct idle.
    { rewrite step_add_idle. simpl.
      rewrite <- (map_id (conversations s)) at 2. apply map_ext_in.
      intros conv Hin. rewrite (Hentry conv Hin). reflexivity. }
    rewrite step_add_conversations. cbv zeta.
    replace (flat_map (fun conv => snd (addMessageEntry c m now conv)) (conversations s))
      with (@nil (Updater X)).
    + rewrite <- (map_id (conversations s)) at 2. apply map_ext_in.
      intros conv Hin. rewrite (Hentry conv Hin). reflexivity.
    + symmetry. induction (conversations s) as [|conv cs IH]; [reflexivity|].
      simpl. rewrite (Hentry conv (or_introl eq_refl)). simpl.
      apply IH.
      * intros conv' Hin'. apply H. right; exact Hin'.
      * intros conv' Hin'. apply Hentry. right; exact Hin'.
Qed.

End Facts.
End ConversationFacts.

(* ================================================================= *)
(** ** The ISO text of a date reads back as the same instant *)

Module DateFacts.
Import Js.
Local Open Scope Z_scope.

Lemma digit_value_digit (x : Z) :
  0 <= x <= 9 -> digit_value (digit x) = Some x.
Proof.
  intros H. unfold digit_value, digit.
  replace ((N.leb 48 (48 + Z.to_N x) && N.leb (48 + Z.to_N x) 57)%N) with true.
  - f_equal. lia.
  - symmetry. apply andb_true_iff. split; apply N.leb_le; lia.
Qed.

Lemma read_digits_pad (k : nat) : forall (n acc : Z) (rest : JsString),
  0 <= n ->
  read_digits k acc (pad k n ++ rest) = Some (acc * 10 ^ Z.of_nat k + n mod 10 ^ Z.of_nat k, rest).
Proof.
  induction k as [|k IH]; intros n acc rest Hn.
  - simpl. f_equal. f_equal. rewrite Z.mod_1_r. lia.
  - cbn [pad read_digits app].
    assert (Hp : 0 < 10 ^ Z.of_nat k) by (apply Z.pow_pos_nonneg; lia).
    rewrite digit_value_digit
      by (pose proof (Z.mod_pos_bound (n / 10 ^ Z.of_nat k) 10); lia).
    rewrite IH by exact Hn. f_equal. f_equal.
    rewrite Nat2Z.inj_succ, Z.pow_succ_r by lia.
    rewrite (Z.mul_comm 10 (10 ^ Z.of_nat k)).
    rewrite Z.rem_mul_r by lia. lia.
Qed.

Lemma read_digits_small (k : nat) (n : Z) (rest : JsString) :
  0 <= n < 10 ^ Z.of_nat k ->
  read_digits k 0 (pad k n ++ rest) = Some (n, rest).
Proof.
  intros H. rewrite read_digits_pad by lia.
  rewrite Z.mod_small by exact H. reflexivity.
Qed.

Lemma digit_not_sign (x : Z) :
  N.eqb (digit x) 43 = false /\ N.eqb (digit x) 45 = false.
Proof. unfold digit. split; apply N.eqb_neq; lia. Qed.

Lemma read_year_text (y : Z) (rest : JsString) :
  - 999999 <= y <= 999999 ->
  read_year (year_text y ++ rest) = Some (y, rest).
Proof.
  intros H. unfold year_text.
  destruct ((0 <=? y) && (y <=? 9999)) eqn:E.
  - apply andb_true_iff in E. destruct E as [E1 E2].
    apply Z.leb_le in E1. apply Z.leb_le in E2.
    pose proof (read_digits_small 4 (n := y) rest) as R.
    change (pad 4 y) with (digit ((y / 10 ^ Z.of_nat 3) mod 10) :: pad 3 y) in *.
    cbn [app] in *. unfold read_year.
    destruct (digit_not_sign ((y / 10 ^ Z.of_nat 3) mod 10)) as [-> ->].
    apply R. change (10 ^ Z.of_nat 4) with 10000. lia.
  - destruct (y <? 0) eqn:En.
    + apply Z.ltb_lt in En. change (lit "-") with [45%N].
      cbn [app]. unfold read_year. change (N.eqb 45 43) with false.
      change (N.eqb 45 45) with true. cbv iota.
      rewrite read_digits_small by (change (10 ^ Z.of_nat 6) with 1000000; lia).
      replace (- y =? 0) with false by (symmetry; apply Z.eqb_neq; lia).
      f_equal. f_equal. lia.
    + apply Z.ltb_ge in En. change (lit "+") with [43%N].
      cbn [app]. unfold read_year. change (N.eqb 43 43) with true. cbv iota.
      apply read_digits_small. change (10 ^ Z.of_nat 6) with 1000000. lia.
Qed.

(** The calendar conversion and its inverse. *)
Lemma civil_from_days_spec (z : Z) :
  let '(y, m, d) := civil_from_days z in
  days_from_civil y m d = z /\ 1 <= m <= 12 /\ 1 <= d <= 31 /\
  (z + 719468) / 146097 * 400 <= y <= (z + 719468) / 146097 * 400 + 400.
Proof.
  unfold civil_from_days.
  set (era := (z + 719468) / 146097).
  set (doe := z + 719468 - era * 146097).
  assert (Hdoe : 0 <= doe <= 146096).
  { subst doe era. Z.to_euclidean_division_equations; lia. }
  set (yoe := (doe - doe / 1460 + doe / 36524 - doe / 146096) / 365).
  set (doy := doe - (365 * yoe + yoe / 4 - yoe / 100)).
  assert (Hy : 0 <= yoe <= 399 /\ 0 <= doy <= 365).
  { subst yoe doy. Z.to_euclidean_division_equations; lia. }
  set (mp := (5 * doy + 2) / 153).
  assert (Hmp : 0 <= mp <= 11 /\ 1 <= doy - (153 * mp + 2) / 5 + 1 <= 31).
  { subst mp. Z.to_euclidean_division_equations; lia. }
  destruct Hy as [Hyoe Hdoy]. destruct Hmp as [Hmp Hd].
  unfold days_from_civil.
  destruct (mp <? 10) eqn:E10.
  - apply Z.ltb_lt in E10.
    replace (mp + 3 <=? 2) with false by (symmetry; apply Z.leb_gt; lia).
    replace (2 <? mp + 3) with true by (symmetry; apply Z.ltb_lt; lia).
    replace (mp + 3 - 3) with mp by lia.
    replace ((yoe + era * 400) / 400) with era
      by (Z.to_euclidean_division_equations; lia).
    replace (yoe + era * 400 - era * 400) with yoe by lia.
    repeat split; lia.
  - apply Z.ltb_ge in E10.
    replace (mp - 9 <=? 2) with true by (symmetry; apply Z.leb_le; lia).
    replace (2 <? mp - 9) with false by (symmetry; apply Z.ltb_ge; lia).
    replace (mp - 9 + 9) with mp by lia.
    replace (yoe + era * 400 + 1 - 1) with (yoe + era * 400) by lia.
    replace ((yoe + era * 400) / 400) with era
      by (Z.to_euclidean_division_equations; lia).
    replace (yoe + era * 400 - era * 400) with yoe by lia.
    repeat split; lia.
Qed.

Lemma expect_same (c : N) (s : JsString) : expect c (c :: s) = Some s.
Proof. unfold expect. rewrite N.eqb_refl. reflexivity. Qed.

(** [Date.parse(x.toISOString())] is the time value of [x]. *)
Lemma parse_iso_toISOString (t : Z) :
  valid_time t -> parse_iso (toISOString t) = Some t.
Proof.
  intros Ht.
  assert (Hrange : (- maxTimeValue <=? t) && (t <=? maxTimeValue) = true)
    by (unfold valid_time in Ht; apply andb_true_iff; split; apply Z.leb_le; lia).
  unfold valid_time, maxTimeValue in Ht.
  unfold toISOString.
  set (day := t / msPerDay). set (tod := t mod msPerDay).
  assert (Hday : - 100000000 <= day <= 100000000)
    by (subst day; unfold msPerDay; Z.to_euclidean_division_equations; lia).
  assert (Htod : 0 <= tod < 86400000)
    by (subst tod; unfold msPerDay; Z.to_euclidean_division_equations; lia).
  assert (Ht' : day * msPerDay + tod = t)
    by (subst day tod; unfold msPerDay; Z.to_euclidean_division_equations; lia).
  pose proof (civil_from_days_spec day) as Hc.
  destruct (civil_from_days day) as [[y m] d].
  destruct Hc as (Hdays & Hm & Hd & Hy).
  assert (Hy' : - 999999 <= y <= 999999)
    by (Z.to_euclidean_division_equations; lia).
  set (h := tod / 3600000). set (mi := (tod / 60000) mod 60).
  set (sec := (tod / 1000) mod 60). set (ms := tod mod 1000).
  assert (Hh : 0 <= h <= 23) by (subst h; Z.to_euclidean_division_equations; lia).
  assert (Hmi : 0 <= mi <= 59) by (subst mi; Z.to_euclidean_division_equations; lia).
  assert (Hsec : 0 <= sec <= 59) by (subst sec; Z.to_euclidean_division_equations; lia).
  assert (Hms : 0 <= ms <= 999) by (subst ms; Z.to_euclidean_division_equations; lia).
  assert (Hsum : h * 3600000 + mi * 60000 + sec * 1000 + ms = tod)
    by (subst h mi sec ms; Z.to_euclidean_division_equations; lia).
  change (lit "-") with [45%N]. change (lit "T") with [84%N].
  change (lit ":") with [58%N]. change (lit ".") with [46%N].
  change (lit "Z") with [90%N].
  unfold parse_iso.
  rewrite read_year_text by exact Hy'. cbn [bind_opt app].
  rewrite expect_same. cbn [bind_opt].
  rewrite read_digits_small by (change (10 ^ Z.of_nat 2) with 100; lia).
  cbn [bind_opt app]. rewrite expect_same. cbn [bind_opt].
  rewrite read_digits_small by (change (10 ^ Z.of_nat 2) with 100; lia).
  cbn [bind_opt app]. rewrite expect_same. cbn [bind_opt].
  rewrite read_digits_small by (change (10 ^ Z.of_nat 2) with 100; lia).
  cbn [bind_opt app]. rewrite expect_same. cbn [bind_opt].
  rewrite read_digits_small by (change (10 ^ Z.of_nat 2) with 100; lia).
  cbn [bind_opt app]. rewrite expect_same. cbn [bind_opt].
  rewrite read_digits_small by (change (10 ^ Z.of_nat 2) with 100; lia).
  cbn [bind_opt app]. rewrite expect_same. cbn [bind_opt].
  rewrite read_digits_small by (change (10 ^ Z.of_nat 3) with 1000; lia).
  cbn [bind_opt app]. rewrite expect_same. cbn [bind_opt].
  replace ((1 <=? m) && (m <=? 12) && (1 <=? d) && (d <=? 31)
           && (h <=? 23) && (mi <=? 59) && (sec <=? 59)) with true
    by (symmetry; repeat (apply andb_true_iff; split); apply Z.leb_le; lia).
  cbv zeta.
  replace (days_from_civil y m d * msPerDay + h * 3600000 + mi * 60000 + sec * 1000 + ms)
    with t by (rewrite Hdays; lia).
  rewrite Hrange. reflexivity.
Qed.

Lemma Date_of_json_toJSON (t : Z) :
  valid_time t -> Date_of_json (toJSON (TimeValue t)) = TimeValue t.
Proof.
  intros H. simpl. rewrite parse_iso_toISOString by exact H. reflexivity.
Qed.

End DateFacts.

(* ================================================================= *)
(** ** Properties of the upload lifecycle manager *)

Module FileUploadFacts.
Import Js Eff Eff.Notations FileUpload.
Local Open Scope Z_scope.

Implicit Types (w : World) (f r : UploadedFile) (fs : list UploadedFile).

(** *** The timer callback and the local handlers on the collection *)

Lemma has_id_true fileId f : has_id fileId f = true <-> id f = fileId.
Proof. unfold has_id. apply str_eqb_eq. Qed.

Lemma has_id_false fileId f : has_id fileId f = false <-> id f <> fileId.
Proof. unfold has_id. apply str_eqb_neq. Qed.

Definition complete_in (fileId : JsString) fs : list UploadedFile :=
  map (fun f => if has_id fileId f then with_status completed f else f) fs.

Definition without (fileId : JsString) fs : list UploadedFile :=
  filter (fun f => negb (has_id fileId f)) fs.

Lemma map_unmatched_file (g : UploadedFile -> UploadedFile) fileId fs :
  (forall f, In f fs -> id f <> fileId) ->
  map (fun f => if has_id fileId f then g f else f) fs = fs.
Proof.
  intros H. rewrite <- (map_id fs) at 2. apply map_ext_in.
  intros f Hin. apply H in Hin. apply has_id_false in Hin. rewrite Hin. reflexivity.
Qed.

Lemma filter_unmatched fileId fs :
  (forall f, In f fs -> id f <> fileId) -> without fileId fs = fs.
Proof.
  intros H. unfold without. induction fs as [|f fs IH]; simpl.
  - reflexivity.
  - assert (Hf : has_id fileId f = false)
      by (apply has_id_false; apply H; left; reflexivity).
    rewrite Hf. simpl. f_equal. apply IH. intros f' Hin. apply H. right; exact Hin.
Qed.

Lemma without_has_none fileId fs f :
  In f (without fileId fs) -> id f <> fileId.
Proof.
  unfold without. intros Hin. apply filter_In in Hin. destruct Hin as [_ Hin].
  apply negb_true_iff in Hin. apply has_id_false. exact Hin.
Qed.

(** Once the record is deleted, its completion callback changes nothing. *)
Lemma complete_after_delete fileId fs :
  complete_in fileId (without fileId fs) = without fileId fs.
Proof.
  unfold complete_in. apply map_unmatched_file. intros f. apply without_has_none.
Qed.

(** The callback leaves every record with another id as it is, and keeps
    the order and the number of records. *)
Lemma complete_in_nth fileId fs n f :
  nth_error fs n = Some f ->
  nth_error (complete_in fileId fs) n =
  Some (if has_id fileId f then with_status completed f else f).
Proof.
  intros H. unfold complete_in.
  apply (map_nth_error (fun f => if has_id fileId f then with_status completed f else f)).
  exact H.
Qed.

Lemma with_files_id w : with_files (fun fs => fs) w = w.
Proof. destruct w; reflexivity. Qed.

Lemma with_files_ext (g h : list UploadedFile -> list UploadedFile) w :
  g (uploadedFiles w) = h (uploadedFiles w) -> with_files g w = with_files h w.
Proof. intros H. unfold with_files. rewrite H. reflexivity. Qed.

(** *** Timers that are due *)

Definition completed_by (ready : list (Z * JsString)) f : UploadedFile :=
  if existsb (fun t => has_id (snd t) f) ready then with_status completed f else f.

Lemma fire_ready (ready : list (Z * JsString)) : forall w,
  fold_left (fun w t => completion (snd t) w) ready w =
  with_files (map (completed_by ready)) w.
Proof.
  induction ready as [|t ready IH]; intros w; simpl.
  - rewrite <- (with_files_id w) at 1. apply with_files_ext.
    symmetry. apply map_id.
  - rewrite IH. unfold completion. unfold with_files at 1 2 3. simpl.
    f_equal. rewrite map_map. apply map_ext. intros f.
    unfold completed_by. simpl.
    destruct (has_id (snd t) f) eqn:E; simpl.
    + unfold has_id in *. simpl. destruct (existsb _ ready); reflexivity.
    + reflexivity.
Qed.

Lemma fire_due_eq w :
  fire_due w =
  with_files (map (completed_by (filter (due (clock w)) (timers w))))
    (with_timers (filter (fun t => negb (due (clock w) t)) (timers w)) w).
Proof. unfold fire_due. apply fire_ready. Qed.

Lemma completed_by_id ready f : id (completed_by ready f) = id f.
Proof. unfold completed_by. destruct (existsb _ ready); reflexivity. Qed.

Lemma completed_by_status ready f :
  processingStatus (completed_by ready f) = completed \/
  completed_by ready f = f.
Proof. unfold completed_by. destruct (existsb _ ready); simpl; auto. Qed.

Lemma completed_by_ready ready f t :
  In t ready -> id f = snd t -> processingStatus (completed_by ready f) = completed.
Proof.
  intros Hin Hid. unfold completed_by.
  replace (existsb (fun t0 => has_id (snd t0) f) ready) with true; [reflexivity|].
  symmetry. apply existsb_exists. exists t. split; [exact Hin|].
  apply has_id_true. exact Hid.
Qed.

(** *** One pass of the upload loop *)

Section Environment.
Variable uuidv4 : nat -> JsString.
Variable network : nat -> Exchange.

(** The world when the [fetch] issued from [w] has settled. *)
Definition after_fetch (req : Request) w : World :=
  happen_all (fetch_meanwhile (network (fetches w)))
    (next_fetch (logged (Requested req) w)).

(** The world in which the loop body inserts its record, and the parsed
    body when the body takes the success branch. *)
Definition arrival (cat : DocumentCategory) (file : File) w
  : World * option UploadData :=
  let w1 := after_fetch (PostUpload file cat) w in
  match fetch_result (network (fetches w)) with
  | Rejected _ => (w1, None)
  | Fulfilled resp =>
      let w2 := happen_all (json_meanwhile resp) w1 in
      match json resp with
      | Rejected _ => (w2, None)
      | Fulfilled data => (w2, if ok resp then Some data else None)
      end
  end.

Definition successEntry (fileId : JsString) (file : File) (now : Date)
    (cat : DocumentCategory) (data : UploadData) : UploadedFile :=
  {| id := fileId; name := file_name file; size := file_size file;
     uploadDate := now; success := true; category := cat;
     processingStatus := processing; documentId := document_id data |}.

Definition inserted (rec : UploadedFile) w : World :=
  logged (Inserted (id rec)) (with_files (cons rec) (next_uuid w)).

Definition entry_for (cat : DocumentCategory) (file : File) w : UploadedFile :=
  let '(wa, res) := arrival cat file w in
  match res with
  | Some data =>
      successEntry (uuidv4 (uuids wa)) file (TimeValue (clock wa)) cat data
  | None => failedEntry (uuidv4 (uuids wa)) file (TimeValue (clock wa)) cat
  end.

Definition after_uploadOne (cat : DocumentCategory) (file : File) w : World :=
  let wa := fst (arrival cat file w) in
  let w' := inserted (entry_for cat file w) wa in
  match snd (arrival cat file w) with
  | Some _ => with_timers (timers wa ++ [(clock wa + 3000, uuidv4 (uuids wa))]) w'
  | None => w'
  end.

Lemma uploadOne_eq cat file w :
  uploadOne uuidv4 network cat file w = Normal tt (after_uploadOne cat file w).
Proof.
  unfold after_uploadOne, entry_for, arrival, after_fetch.
  unfold uploadOne, try_catch, bind, fetch, response_json.
  destruct (fetch_result (network (fetches w))) as [resp|e]; [|reflexivity].
  destruct (json resp) as [data|e]; [|reflexivity].
  destruct (ok resp); reflexivity.
Qed.

(** *** What events leave alone *)

Definition is_delete (e : Event) : bool :=
  match e with DeleteFile _ => true | _ => false end.

Definition file_ids fs : list JsString := map id fs.

Lemma happen_frame e w :
  uuids (happen e w) = uuids w /\ fetches (happen e w) = fetches w /\
  log (happen e w) = log w /\ isUploading (happen e w) = isUploading w /\
  clock w <= clock (happen e w).
Proof.
  destruct e as [ms|fileId|fileId c]; simpl.
  - rewrite fire_due_eq. simpl. repeat split; lia.
  - repeat split; lia.
  - repeat split; lia.
Qed.

Lemma happen_all_frame es : forall w,
  uuids (happen_all es w) = uuids w /\ fetches (happen_all es w) = fetches w /\
  log (happen_all es w) = log w /\ isUploading (happen_all es w) = isUploading w /\
  clock w <= clock (happen_all es w).
Proof.
  induction es as [|e es IH]; intros w; simpl.
  - repeat split; lia.
  - destruct (IH (happen e w)) as (-> & -> & -> & -> & Hc).
    destruct (happen_frame e w) as (-> & -> & -> & -> & Hc').
    repeat split; lia.
Qed.

Lemma happen_ids e w :
  is_delete e = false ->
  file_ids (uploadedFiles (happen e w)) = file_ids (uploadedFiles w).
Proof.
  unfold file_ids. destruct e as [ms|fileId|fileId c]; simpl; intros H.
  - rewrite fire_due_eq. simpl. rewrite map_map. apply map_ext.
    intros f. apply completed_by_id.
  - discriminate.
  - rewrite map_map. apply map_ext. intros f.
    destruct (has_id fileId f); reflexivity.
Qed.

Lemma happen_all_ids es : forall w,
  forallb (fun e => negb (is_delete e)) es = true ->
  file_ids (uploadedFiles (happen_all es w)) = file_ids (uploadedFiles w).
Proof.
  induction es as [|e es IH]; intros w H; simpl.
  - reflexivity.
  - simpl in H. apply andb_true_iff in H. destruct H as [He Hes].
    rewrite IH by exact Hes. apply happen_ids.
    apply negb_true_iff. exact He.
Qed.

(** No event of the exchange is a deletion. *)
Definition calm (ex : Exchange) : bool :=
  forallb (fun e => negb (is_delete e)) (fetch_meanwhile ex)
  && match fetch_result ex with
     | Fulfilled resp => forallb (fun e => negb (is_delete e)) (json_meanwhile resp)
     | Rejected _ => true
     end.

Lemma arrival_frame cat file w :
  let wa := fst (arrival cat file w) in
  uuids wa = uuids w /\ fetches wa = S (fetches w) /\
  log wa = log w ++ [Requested (PostUpload file cat)] /\
  isUploading wa = isUploading w /\ clock w <= clock wa.
Proof.
  unfold arrival, after_fetch.
  set (w0 := next_fetch (logged (Requested (PostUpload file cat)) w)).
  pose proof (happen_all_frame (fetch_meanwhile (network (fetches w))) w0) as H1.
  destruct (fetch_result (network (fetches w))) as [resp|e].
  - pose proof (happen_all_frame (json_meanwhile resp)
                  (happen_all (fetch_meanwhile (network (fetches w))) w0)) as H2.
    destruct H1 as (E1 & E2 & E3 & E4 & E5).
    destruct H2 as (F1 & F2 & F3 & F4 & F5).
    assert (G : let wa := happen_all (json_meanwhile resp)
                            (happen_all (fetch_meanwhile (network (fetches w))) w0) in
                uuids wa = uuids w /\ fetches wa = S (fetches w) /\
                log wa = log w ++ [Requested (PostUpload file cat)] /\
                isUploading wa = isUploading w /\ clock w <= clock wa).
    { cbv zeta. rewrite F1, F2, F3, F4, E1, E2, E3, E4. simpl.
      simpl in E5. repeat split; lia. }
    destruct (json resp); exact G.
  - destruct H1 as (E1 & E2 & E3 & E4 & E5). simpl.
    rewrite E1, E2, E3, E4. simpl. simpl in E5. repeat split; lia.
Qed.

Lemma arrival_ids cat file w :
  calm (network (fetches w)) = true ->
  file_ids (uploadedFiles (fst (arrival cat file w))) = file_ids (uploadedFiles w).
Proof.
  unfold calm, arrival, after_fetch. intros H.
  apply andb_true_iff in H. destruct H as [H1 H2].
  set (w0 := next_fetch (logged (Requested (PostUpload file cat)) w)).
  assert (E : file_ids (uploadedFiles
                (happen_all (fetch_meanwhile (network (fetches w))) w0))
              = file_ids (uploadedFiles w))
    by (rewrite happen_all_ids by exact H1; reflexivity).
  destruct (fetch_result (network (fetches w))) as [resp|e].
  - assert (E' : file_ids (uploadedFiles
                   (happen_all (json_meanwhile resp)
                      (happen_all (fetch_meanwhile (network (fetches w))) w0)))
                 = file_ids (uploadedFiles w))
      by (rewrite happen_all_ids by exact H2; exact E).
    destruct (json resp); exact E'.
  - exact E.
Qed.

Lemma entry_for_id cat file w : id (entry_for cat file w) = uuidv4 (uuids w).
Proof.
  unfold entry_for. pose proof (arrival_frame cat file w) as H.
  destruct (arrival cat file w) as [wa res]. simpl in H.
  destruct H as (-> & _). destruct res; reflexivity.
Qed.

Lemma after_uploadOne_frame cat file w :
  let w' := after_uploadOne cat file w in
  uuids w' = S (uuids w) /\ fetches w' = S (fetches w) /\
  log w' = log w ++ [Requested (PostUpload file cat); Inserted (uuidv4 (uuids w))] /\
  isUploading w' = isUploading w /\
  uploadedFiles w' = entry_for cat file w :: uploadedFiles (fst (arrival cat file w)).
Proof.
  unfold after_uploadOne.
  pose proof (arrival_frame cat file w) as H. cbv zeta in H.
  destruct H as (E1 & E2 & E3 & E4 & _).
  assert (G : let w' := inserted (entry_for cat file w) (fst (arrival cat file w)) in
              uuids w' = S (uuids w) /\ fetches w' = S (fetches w) /\
              log w' = log w ++ [Requested (PostUpload file cat); Inserted (uuidv4 (uuids w))] /\
              isUploading w' = isUploading w /\
              uploadedFiles w' = entry_for cat file w :: uploadedFiles (fst (arrival cat file w))).
  { cbv zeta. unfold inserted. simpl. rewrite E1, E2, E3, E4, entry_for_id.
    rewrite <- app_assoc. simpl. auto. }
  destruct (snd (arrival cat file w)); exact G.
Qed.

(** *** The whole batch *)

Definition after_batch (cat : DocumentCategory) (files : list File) w : World :=
  fold_left (fun w file => after_uploadOne cat file w) files w.

Lemma for_of_uploadOne cat files : forall w,
  for_of files (uploadOne uuidv4 network cat) w = Normal tt (after_batch cat files w).
Proof.
  induction files as [|file files IH]; intros w; simpl.
  - reflexivity.
  - unfold bind. rewrite uploadOne_eq. apply IH.
Qed.

Lemma uploadFiles_eq cat files w :
  uploadFiles uuidv4 network (Some files) cat w =
  Normal tt (with_uploading false (after_batch cat files (with_uploading true w))).
Proof.
  unfold uploadFiles, bind, setIsUploading, modify.
  rewrite for_of_uploadOne. reflexivity.
Qed.

(** The requests and insertions of a batch, in the order they happen. *)
Fixpoint upload_log (cat : DocumentCategory) (k : nat) (files : list File)
  : list Effect :=
  match files with
  | [] => []
  | file :: files' =>
      Requested (PostUpload file cat) :: Inserted (uuidv4 k)
        :: upload_log cat (S k) files'
  end.

Lemma after_batch_frame cat files : forall w,
  let w' := after_batch cat files w in
  uuids w' = (uuids w + List.length files)%nat /\
  fetches w' = (fetches w + List.length files)%nat /\
  log w' = log w ++ upload_log cat (uuids w) files /\
  isUploading w' = isUploading w.
Proof.
  induction files as [|file files IH]; intros w; simpl.
  - rewrite app_nil_r. repeat split; lia.
  - destruct (IH (after_uploadOne cat file w)) as (-> & -> & -> & ->).
    destruct (after_uploadOne_frame cat file w) as (-> & -> & -> & -> & _).
    rewrite <- app_assoc. simpl. repeat split; lia.
Qed.

Lemma after_batch_ids cat files : forall w,
  (forall k, calm (network k) = true) ->
  file_ids (uploadedFiles (after_batch cat files w)) =
  rev (map uuidv4 (seq (uuids w) (List.length files))) ++ file_ids (uploadedFiles w).
Proof.
  induction files as [|file files IH]; intros w Hcalm; simpl.
  - reflexivity.
  - rewrite IH by exact Hcalm.
    destruct (after_uploadOne_frame cat file w) as (-> & _ & _ & _ & ->).
    unfold file_ids at 1. simpl. fold (file_ids (uploadedFiles (fst (arrival cat file w)))).
    rewrite entry_for_id, arrival_ids by apply Hcalm.
    rewrite <- app_assoc. reflexivity.
Qed.

Lemma uuids_distinct (k n : nat) :
  (forall i j, uuidv4 i = uuidv4 j -> i = j) ->
  NoDup (map uuidv4 (seq k n)).
Proof.
  intros Hinj. apply NoDup_map_NoDup_ForallPairs.
  - intros i j _ _ E. apply Hinj. exact E.
  - apply seq_NoDup.
Qed.

(** *** Remote deletion *)

(** How [deleteFileFromKnowledgeBase] treats the record it finds:
    [None] for a local deletion, [Some docId] for a remote one. *)
Definition remote_key (fileId : JsString) w : option JsString :=
  match find (has_id fileId) (uploadedFiles w) with
  | None => None
  | Some file =>
      match documentId file with
      | None => None
      | Some docId => if truthy docId then Some docId else None
      end
  end.

Lemma deleteFileFromKnowledgeBase_eq fileId w :
  deleteFileFromKnowledgeBase network fileId w =
  Normal tt
    match remote_key fileId w with
    | None => deleteFile fileId w
    | Some docId =>
        let w1 := after_fetch (DeleteDocument docId) w in
        match fetch_result (network (fetches w)) with
        | Fulfilled resp => if ok resp then deleteFile fileId w1 else w1
        | Rejected _ => w1
        end
    end.
Proof.
  unfold deleteFileFromKnowledgeBase, remote_key.
  destruct (find (has_id fileId) (uploadedFiles w)) as [file|]; [|reflexivity].
  destruct (documentId file) as [docId|]; [|reflexivity].
  destruct (truthy docId); simpl; [|reflexivity].
  unfold try_catch, bind, fetch, after_fetch.
  destruct (fetch_result (network (fetches w))) as [resp|e]; [|reflexivity].
  destruct (ok resp); reflexivity.
Qed.

(** *** A scheduled completion is never lost *)

(** The record with id [i], inserted when the clock read [c], either
    still waits for its timer or is past it and completed. *)
Definition settled (i : JsString) (c : Z) w : Prop :=
  (In (c + 3000, i) (timers w) /\ clock w < c + 3000) \/
  (c + 3000 <= clock w /\
   forall r, In r (uploadedFiles w) -> id r = i -> processingStatus r = completed).

Definition present (i : JsString) w : Prop :=
  exists r, In r (uploadedFiles w) /\ id r = i.

Definition spares (i : JsString) (es : list Event) : Prop :=
  ~ In (DeleteFile i) es.

Definition network_spares (i : JsString) : Prop :=
  forall k,
    spares i (fetch_meanwhile (network k)) /\
    match fetch_result (network k) with
    | Fulfilled resp => spares i (json_meanwhile resp)
    | Rejected _ => True
    end.

Definition action_spares (i : JsString) (a : Action) : Prop :=
  match a with
  | Happens (DeleteFile j) => j <> i
  | CallDeleteFileFromKnowledgeBase j => j <> i
  | _ => True
  end.

Lemma settled_happen i c e w : settled i c w -> settled i c (happen e w).
Proof.
  intros H. destruct e as [ms|fileId|fileId cat]; simpl.
  - rewrite fire_due_eq. unfold settled. simpl.
    destruct (Z.ltb (clock w + Z.of_N ms) (c + 3000)) eqn:E.
    + apply Z.ltb_lt in E. destruct H as [[Hin Hc]|[Hc _]]; [|lia].
      left. split; [|exact E]. apply filter_In. split; [exact Hin|].
      unfold due. simpl. apply negb_true_iff. apply Z.leb_gt. exact E.
    + apply Z.ltb_ge in E. right. split; [exact E|].
      intros r Hr Hid. apply in_map_iff in Hr. destruct Hr as (f & <- & Hf).
      rewrite completed_by_id in Hid.
      destruct H as [[Hin Hc]|[Hc Hall]].
      * apply completed_by_ready with (t := (c + 3000, i)).
        -- apply filter_In. split; [exact Hin|]. unfold due. simpl.
           apply Z.leb_le. exact E.
        -- exact Hid.
      * destruct (completed_by_status
                    (filter (due (clock w + Z.of_N ms)) (timers w)) f) as [Hs|Hs].
        -- exact Hs.
        -- rewrite Hs. apply Hall; assumption.
  - destruct H as [H|[Hc Hall]]; [left; exact H|right]. split; [exact Hc|].
    intros r Hr. apply filter_In in Hr. apply Hall. apply Hr.
  - destruct H as [H|[Hc Hall]]; [left; exact H|right]. split; [exact Hc|].
    intros r Hr Hid. apply in_map_iff in Hr. destruct Hr as (f & <- & Hf).
    destruct (has_id fileId f); simpl in *; apply Hall; assumption.
Qed.

Lemma present_happen i e w :
  e <> DeleteFile i -> present i w -> present i (happen e w).
Proof.
  intros He (r & Hr & Hid). destruct e as [ms|fileId|fileId cat]; simpl.
  - rewrite fire_due_eq. simpl.
    exists (completed_by (filter (due (clock w + Z.of_N ms)) (timers w)) r).
    split; [apply in_map; exact Hr|]. rewrite completed_by_id. exact Hid.
  - exists r. split; [|exact Hid]. apply filter_In. split; [exact Hr|].
    apply negb_true_iff. apply has_id_false. rewrite Hid.
    intros E. apply He. rewrite E. reflexivity.
  - exists (if has_id fileId r then with_category cat r else r).
    split.
    + apply (in_map (fun f => if has_id fileId f then with_category cat f else f)).
      exact Hr.
    + destruct (has_id fileId r); exact Hid.
Qed.

(** What is kept about the record [i = uuidv4 k0] inserted at time [c]. *)
Definition kept (k0 : nat) (c : Z) w : Prop :=
  (k0 < uuids w)%nat /\ settled (uuidv4 k0) c w /\ present (uuidv4 k0) w.

Lemma kept_happen_all k0 c es : forall w,
  spares (uuidv4 k0) es -> kept k0 c w -> kept k0 c (happen_all es w).
Proof.
  induction es as [|e es IH]; intros w Hsp H; simpl.
  - exact H.
  - apply IH.
    + intros Hin. apply Hsp. right; exact Hin.
    + destruct H as (Hk & Hs & Hp). split; [|split].
      * destruct (happen_frame e w) as (-> & _). exact Hk.
      * apply settled_happen. exact Hs.
      * apply present_happen; [|exact Hp].
        intros ->. apply Hsp. left; reflexivity.
Qed.

(** Steps that touch neither the collection, the timers nor the clock. *)
Lemma kept_same k0 c w w' :
  uploadedFiles w' = uploadedFiles w -> timers w' = timers w ->
  clock w' = clock w -> (uuids w <= uuids w')%nat ->
  kept k0 c w -> kept k0 c w'.
Proof.
  intros Ef Et Ec Eu (Hk & Hs & Hp). unfold kept, settled, present.
  rewrite Ef, Et, Ec. split; [lia|]. split; assumption.
Qed.

Lemma kept_deleteFile k0 c j w :
  j <> uuidv4 k0 -> kept k0 c w -> kept k0 c (deleteFile j w).
Proof.
  intros Hj (Hk & Hs & Hp). split; [exact Hk|]. split.
  - apply (settled_happen (DeleteFile j)). exact Hs.
  - apply (present_happen (e := DeleteFile j)); [|exact Hp].
    intros E. injection E as E. exact (Hj E).
Qed.

Lemma kept_arrival k0 c cat file w :
  network_spares (uuidv4 k0) -> kept k0 c w ->
  kept k0 c (fst (arrival cat file w)).
Proof.
  intros Hn H. unfold arrival, after_fetch.
  destruct (Hn (fetches w)) as [Hf Hj].
  assert (H1 : kept k0 c (happen_all (fetch_meanwhile (network (fetches w)))
                           (next_fetch (logged (Requested (PostUpload file cat)) w)))).
  { apply kept_happen_all; [exact Hf|].
    apply (kept_same (w := w)); simpl; auto. }
  destruct (fetch_result (network (fetches w))) as [resp|e]; [|exact H1].
  assert (H2 : kept k0 c (happen_all (json_meanwhile resp)
                           (happen_all (fetch_meanwhile (network (fetches w)))
                              (next_fetch (logged (Requested (PostUpload file cat)) w)))))
    by (apply kept_happen_all; assumption).
  destruct (json resp); exact H2.
Qed.

Lemma kept_after_uploadOne k0 c cat file w :
  (forall i j, uuidv4 i = uuidv4 j -> i = j) ->
  network_spares (uuidv4 k0) -> kept k0 c w ->
  kept k0 c (after_uploadOne cat file w).
Proof.
  intros Hinj Hn H.
  pose proof (kept_arrival cat file Hn H) as Ha.
  pose proof (arrival_frame cat file w) as Hfr. cbv zeta in Hfr.
  destruct Hfr as (Eu & _).
  pose proof (entry_for_id cat file w) as Eid.
  unfold after_uploadOne.
  set (wa := fst (arrival cat file w)) in *.
  set (rec := entry_for cat file w) in *.
  assert (Hne : id rec <> uuidv4 k0).
  { rewrite Eid. intros E. apply Hinj in E. destruct H as (Hk & _). lia. }
  assert (G : kept k0 c (inserted rec wa)).
  { destruct Ha as (Hk & Hs & Hp). split; [simpl; lia|]. split.
    - destruct Hs as [Hs|[Hc Hall]]; [left; exact Hs|right].
      split; [exact Hc|]. simpl. intros r [<-|Hr] Hid.
      + contradiction.
      + apply Hall; assumption.
    - destruct Hp as (r & Hr & Hid). exists r. simpl. auto. }
  destruct (snd (arrival cat file w)); [|exact G].
  destruct G as (Hk & Hs & Hp). split; [exact Hk|]. split; [|exact Hp].
  destruct Hs as [[Hin Hc]|Hs]; [left|right; exact Hs].
  split; [|exact Hc]. simpl. simpl in Hin. apply in_or_app. left. exact Hin.
Qed.

Lemma kept_after_batch k0 c cat files : forall w,
  (forall i j, uuidv4 i = uuidv4 j -> i = j) ->
  network_spares (uuidv4 k0) -> kept k0 c w ->
  kept k0 c (after_batch cat files w).
Proof.
  induction files as [|file files IH]; intros w Hinj Hn H; simpl.
  - exact H.
  - apply IH; try assumption. apply kept_after_uploadOne; assumption.
Qed.

Lemma kept_act k0 c a w :
  (forall i j, uuidv4 i = uuidv4 j -> i = j) ->
  network_spares (uuidv4 k0) -> action_spares (uuidv4 k0) a ->
  kept k0 c w -> kept k0 c (act uuidv4 network a w).
Proof.
  intros Hinj Hn Ha H. destruct a as [e|files cat|fileId]; simpl.
  - apply (kept_happen_all (es := [e])); [|exact H].
    intros [->|[]]. simpl in Ha. apply Ha. reflexivity.
  - destruct files as [files|]; [|exact H].
    rewrite uploadFiles_eq. simpl.
    apply (kept_same (w := after_batch cat files (with_uploading true w))); auto.
    apply kept_after_batch; assumption.
  - simpl in Ha. rewrite deleteFileFromKnowledgeBase_eq. simpl.
    destruct (remote_key fileId w) as [docId|].
    + assert (H1 : kept k0 c (after_fetch (DeleteDocument docId) w)).
      { unfold after_fetch. apply kept_happen_all; [apply Hn|].
        apply (kept_same (w := w)); simpl; auto. }
      cbv zeta.
      destruct (fetch_result (network (fetches w))) as [resp|e]; [|exact H1].
      destruct (ok resp); [|exact H1].
      apply kept_deleteFile; assumption.
    + apply kept_deleteFile; assumption.
Qed.

Lemma kept_act_all k0 c acts : forall w,
  (forall i j, uuidv4 i = uuidv4 j -> i = j) ->
  network_spares (uuidv4 k0) ->
  Forall (action_spares (uuidv4 k0)) acts ->
  kept k0 c w -> kept k0 c (act_all uuidv4 network acts w).
Proof.
  induction acts as [|a acts IH]; intros w Hinj Hn Hall H; simpl.
  - exact H.
  - inversion Hall as [|? ? Ha Hall']; subst.
    apply IH; try assumption. apply kept_act; assumption.
Qed.

(** *** The collection an upload finds when its response arrives *)

(** Everything that happened while the request was in flight. *)
Definition meanwhile (ex : Exchange) : list Event :=
  fetch_meanwhile ex ++
  match fetch_result ex with
  | Fulfilled resp => json_meanwhile resp
  | Rejected _ => []
  end.

(** The exchange took an error path: the transport failed, the backend
    rejected the upload, or the body could not be read. *)
Definition upload_failed (ex : Exchange) : bool :=
  match fetch_result ex with
  | Rejected _ => true
  | Fulfilled resp =>
      negb (ok resp) || match json resp with Rejected _ => true | Fulfilled _ => false end
  end.

Definition same_core w w' : Prop :=
  uploadedFiles w = uploadedFiles w' /\ timers w = timers w' /\ clock w = clock w'.

Lemma happen_core e w w' : same_core w w' -> same_core (happen e w) (happen e w').
Proof.
  intros (Ef & Et & Ec). destruct e as [ms|fileId|fileId cat]; simpl.
  - rewrite !fire_due_eq. unfold same_core. simpl. rewrite Ef, Et, Ec. auto.
  - unfold same_core. simpl. rewrite Ef, Et, Ec. auto.
  - unfold same_core. simpl. rewrite Ef, Et, Ec. auto.
Qed.

Lemma happen_all_core es : forall w w',
  same_core w w' -> same_core (happen_all es w) (happen_all es w').
Proof.
  induction es as [|e es IH]; intros w w' H; simpl.
  - exact H.
  - apply IH. apply happen_core. exact H.
Qed.

Lemma happen_all_app es es' w :
  happen_all (es ++ es') w = happen_all es' (happen_all es w).
Proof. unfold happen_all. apply fold_left_app. Qed.

Lemma after_fetch_core req w :
  same_core (after_fetch req w)
    (happen_all (fetch_meanwhile (network (fetches w))) w).
Proof.
  unfold after_fetch. apply happen_all_core. unfold same_core. simpl. auto.
Qed.

Lemma arrival_core cat file w :
  same_core (fst (arrival cat file w))
    (happen_all (meanwhile (network (fetches w))) w).
Proof.
  unfold arrival, meanwhile.
  pose proof (after_fetch_core (PostUpload file cat) w) as H.
  destruct (fetch_result (network (fetches w))) as [resp|e].
  - rewrite happen_all_app.
    assert (G : same_core
                  (happen_all (json_meanwhile resp) (after_fetch (PostUpload file cat) w))
                  (happen_all (json_meanwhile resp)
                     (happen_all (fetch_meanwhile (network (fetches w))) w)))
      by (apply happen_all_core; exact H).
    destruct (json resp); exact G.
  - rewrite app_nil_r. exact H.
Qed.

Lemma arrival_outcome cat file w :
  snd (arrival cat file w) =
  match fetch_result (network (fetches w)) with
  | Fulfilled resp =>
      match json resp with
      | Fulfilled data => if ok resp then Some data else None
      | Rejected _ => None
      end
  | Rejected _ => None
  end.
Proof.
  unfold arrival. destruct (fetch_result (network (fetches w))) as [resp|e];
    [|reflexivity]. destruct (json resp); reflexivity.
Qed.

Lemma after_uploadOne_core cat file w :
  clock (after_uploadOne cat file w) = clock (fst (arrival cat file w)) /\
  (forall data, snd (arrival cat file w) = Some data ->
     In (clock (fst (arrival cat file w)) + 3000, uuidv4 (uuids w))
       (timers (after_uploadOne cat file w))).
Proof.
  unfold after_uploadOne.
  pose proof (arrival_frame cat file w) as H. cbv zeta in H. destruct H as (Eu & _).
  destruct (snd (arrival cat file w)) as [data|]; simpl.
  - split; [reflexivity|]. intros _ _. apply in_or_app. right.
    rewrite Eu. left. reflexivity.
  - split; [reflexivity|]. intros data H. discriminate.
Qed.

(** Events never add a record. *)
Lemma happen_all_no_new_id i es : forall w,
  (forall r, In r (uploadedFiles w) -> id r <> i) ->
  forall r, In r (uploadedFiles (happen_all es w)) -> id r <> i.
Proof.
  induction es as [|e es IH]; intros w H; simpl.
  - exact H.
  - apply IH. destruct e as [ms|fileId|fileId cat]; simpl.
    + rewrite fire_due_eq. simpl. intros r Hr.
      apply in_map_iff in Hr. destruct Hr as (f & <- & Hf).
      rewrite completed_by_id. apply H. exact Hf.
    + intros r Hr. apply filter_In in Hr. apply H. apply Hr.
    + intros r Hr. apply in_map_iff in Hr. destruct Hr as (f & <- & Hf).
      destruct (has_id fileId f); simpl; apply H; exact Hf.
Qed.

Lemma completion_unmatched i w :
  (forall r, In r (uploadedFiles w) -> id r <> i) -> completion i w = w.
Proof.
  intros H. unfold completion.
  rewrite <- (with_files_id w) at 2. apply with_files_ext.
  apply map_unmatched_file. exact H.
Qed.

(** *** The error paths *)

Lemma after_uploadOne_failed cat file w :
  upload_failed (network (fetches w)) = true ->
  let w1 := after_uploadOne cat file w in
  let wm := happen_all (meanwhile (network (fetches w))) w in
  uploadedFiles w1 =
    failedEntry (uuidv4 (uuids w)) file (TimeValue (clock w1)) cat :: uploadedFiles wm /\
  timers w1 = timers wm /\ clock w1 = clock wm.
Proof.
  intros Hfail w1 wm. subst w1 wm.
  assert (Hout : snd (arrival cat file w) = None).
  { rewrite arrival_outcome. unfold upload_failed in Hfail.
    destruct (fetch_result (network (fetches w))) as [resp|e]; [|reflexivity].
    destruct (json resp) as [data|e]; [|reflexivity].
    destruct (ok resp); [discriminate|reflexivity]. }
  destruct (arrival_core cat file w) as (Ef & Et & Ec).
  destruct (arrival_frame cat file w) as (Eu & _).
  unfold after_uploadOne, entry_for.
  destruct (arrival cat file w) as [wa res]. simpl in *. subst res.
  simpl. rewrite Ef, Et, Eu, Ec. auto.
Qed.

(** The records of a batch in which every upload fails at the time [now],
    the latest first; the first file gets the [k]-th id. *)
Definition failed_batch (cat : DocumentCategory) (now : Date) (k : nat)
    (files : list File) : list UploadedFile :=
  rev (map (fun p => failedEntry (uuidv4 (fst p)) (snd p) now cat)
         (combine (seq k (List.length files)) files)).

Lemma failed_batch_cons cat now k file files :
  failed_batch cat now k (file :: files) =
  failed_batch cat now (S k) files ++ [failedEntry (uuidv4 k) file now cat].
Proof. reflexivity. Qed.

Lemma after_batch_all_failed cat files : forall w,
  (forall k, upload_failed (network k) = true) ->
  (forall k, meanwhile (network k) = []) ->
  let w' := after_batch cat files w in
  uploadedFiles w' =
    failed_batch cat (TimeValue (clock w)) (uuids w) files ++ uploadedFiles w /\
  timers w' = timers w /\ clock w' = clock w.
Proof.
  induction files as [|file files IH]; intros w Hfail Hsilent; cbv zeta.
  - simpl. auto.
  - change (after_batch cat (file :: files) w)
      with (after_batch cat files (after_uploadOne cat file w)).
    destruct (IH (after_uploadOne cat file w) Hfail Hsilent) as (-> & -> & ->).
    destruct (after_uploadOne_failed cat file w (Hfail _)) as (-> & -> & ->).
    destruct (after_uploadOne_frame cat file w) as (-> & _).
    rewrite Hsilent. simpl happen_all.
    rewrite failed_batch_cons, <- app_assoc. simpl. auto.
Qed.

Lemma after_batch_length cat files w :
  (forall k, calm (network k) = true) ->
  List.length (uploadedFiles (after_batch cat files w)) =
  (List.length files + List.length (uploadedFiles w))%nat.
Proof.
  intros Hcalm.
  pose proof (after_batch_ids cat files w Hcalm) as H.
  apply (f_equal (@List.length JsString)) in H. unfold file_ids in H.
  rewrite length_app, length_rev, !length_map, length_seq in H. exact H.
Qed.

End Environment.

End FileUploadFacts.

(* ================================================================= *)
(** ** Properties of the knowledge-base listing *)

Module FileListFacts.
Import Js Eff Eff.Notations FileList.

Section Environment.
Variable clock : nat -> Z.

(** The entries of a listing, the [k]-th clock reading onwards. *)
Fixpoint stamped (k : nat) (xs : list FileEntry) : list KnowledgeBaseFile :=
  match xs with
  | [] => []
  | x :: xs' =>
      {| id := entry_id x; name := entry_name x; originalName := entry_name x;
         dateAdded := Some (toISOString (clock k)) |} :: stamped (S k) xs'
  end.

Definition with_dates (n : nat) (w : World) : World :=
  {| files := files w; isLoading := isLoading w; error := error w; dates := n |}.

Lemma map_entries_eq xs : forall w,
  map_entries clock xs w =
  Normal (stamped (dates w) xs) (with_dates (dates w + List.length xs) w).
Proof.
  induction xs as [|x xs IH]; intros w; simpl.
  - unfold ret, with_dates. rewrite Nat.add_0_r. destruct w; reflexivity.
  - unfold bind, processFileEntry, new_Date, bind, ret. simpl.
    rewrite IH. simpl. unfold with_dates. simpl.
    rewrite Nat.add_succ_r. reflexivity.
Qed.

Lemma fetchFiles_eq (exchange : Outcome Response) (w : World) :
  fetchFiles clock exchange w =
  Normal tt
    match exchange with
    | Rejected e =>
        {| files := []; isLoading := false; error := Some (message_of e);
           dates := dates w |}
    | Fulfilled resp =>
        if ok resp then
          match json resp with
          | Fulfilled data =>
              {| files := stamped (dates w) (files_of data); isLoading := false;
                 error := None;
                 dates := dates w + List.length (files_of data) |}
          | Rejected e =>
              {| files := []; isLoading := false; error := Some (message_of e);
                 dates := dates w |}
          end
        else
          {| files := []; isLoading := false;
             error := Some (lit "Failed to fetch files"); dates := dates w |}
    end.
Proof.
  unfold fetchFiles, try_finally, try_catch, bind, setIsLoading, modify, await.
  destruct exchange as [resp|e]; simpl; [|reflexivity].
  destruct (ok resp); simpl; [|reflexivity].
  destruct (json resp) as [data|e]; simpl; [|reflexivity].
  rewrite map_entries_eq. reflexivity.
Qed.

Lemma stamped_nth k xs n x :
  nth_error xs n = Some x ->
  nth_error (stamped k xs) n =
  Some {| id := entry_id x; name := entry_name x; originalName := entry_name x;
          dateAdded := Some (toISOString (clock (k + n))) |}.
Proof.
  revert k n. induction xs as [|x0 xs IH]; intros k [|n] H; simpl in *;
    try discriminate.
  - injection H as ->. rewrite Nat.add_0_r. reflexivity.
  - rewrite (IH (S k) n H). rewrite Nat.add_succ_r. reflexivity.
Qed.

Lemma stamped_length k xs : List.length (stamped k xs) = List.length xs.
Proof. revert k. induction xs as [|x xs IH]; intros k; simpl; auto. Qed.

End Environment.
End FileListFacts.

(* ================================================================= *)
(** ** Sample data *)

Module Samples.
Import Js Eff.

Definition c1 : JsString := lit "c-1".
Definition c2 : JsString := lit "c-2".
Definition nowhere : JsString := lit "nowhere".

Definition hello : Conversations.Message unit :=
  {| Conversations.role := Conversations.user;
     Conversations.content := lit "hello";
     Conversations.extra := tt |}.

(** A user message of 31 characters. *)
Definition long_question : Conversations.Message unit :=
  {| Conversations.role := Conversations.user;
     Conversations.content := repeat 97%N 31;
     Conversations.extra := tt |}.

(** A fresh session on an empty store. *)
Definition fresh : Conversations.State unit :=
  Conversations.initialize None c1 0.

(** An id generator that never repeats. *)
Definition numbered (k : nat) : JsString := lit "file-" ++ [N.of_nat k].

Lemma numbered_injective (i j : nat) : numbered i = numbered j -> i = j.
Proof.
  unfold numbered. intros E. apply app_inv_head in E.
  injection E as E. apply Nat2N.inj. exact E.
Qed.

Definition report : FileUpload.File :=
  {| FileUpload.file_name := lit "report.pdf"; FileUpload.file_size := 1024 |}.
Definition notes : FileUpload.File :=
  {| FileUpload.file_name := lit "notes.txt"; FileUpload.file_size := 12 |}.

Definition accepted (docId : JsString) : FileUpload.Exchange :=
  {| FileUpload.fetch_meanwhile := [];
     FileUpload.fetch_result :=
       Fulfilled {| FileUpload.ok := true;
                    FileUpload.json_meanwhile := [];
                    FileUpload.json :=
                      Fulfilled {| FileUpload.document_id := Some docId |} |} |}.

(** A 500 response with a JSON body. *)
Definition rejected : FileUpload.Exchange :=
  {| FileUpload.fetch_meanwhile := [];
     FileUpload.fetch_result :=
       Fulfilled {| FileUpload.ok := false;
                    FileUpload.json_meanwhile := [];
                    FileUpload.json :=
                      Fulfilled {| FileUpload.document_id := None |} |} |}.

Definition unreachable : FileUpload.Exchange :=
  {| FileUpload.fetch_meanwhile := [];
     FileUpload.fetch_result := Rejected (ErrorObject (lit "Failed to fetch")) |}.

Definition always (ex : FileUpload.Exchange) (k : nat) : FileUpload.Exchange := ex.

Definition idle : FileUpload.World :=
  {| FileUpload.uploadedFiles := []; FileUpload.isUploading := false;
     FileUpload.timers := []; FileUpload.clock := 0; FileUpload.fetches := 0;
     FileUpload.uuids := 0; FileUpload.log := [] |}.

Definition stored (fileId : JsString) (docId : option JsString)
  : FileUpload.UploadedFile :=
  {| FileUpload.id := fileId; FileUpload.name := lit "report.pdf";
     FileUpload.size := 1024; FileUpload.uploadDate := TimeValue 0;
     FileUpload.success := true; FileUpload.category := FileUpload.general;
     FileUpload.processingStatus := FileUpload.completed;
     FileUpload.documentId := docId |}.

Definition holding (fs : list FileUpload.UploadedFile) : FileUpload.World :=
  {| FileUpload.uploadedFiles := fs; FileUpload.isUploading := false;
     FileUpload.timers := []; FileUpload.clock := 0; FileUpload.fetches := 0;
     FileUpload.uuids := 0; FileUpload.log := [] |}.

End Samples.

(* ================================================================= *)
(** ** The conversation session manager: main results *)

Section ConversationResults.
Import Js Conversations ConversationFacts.

(** Claim C1, as the code has it.  After initialization, with one handler
    call per render (each handler is called from the render the call before
    it caused) and as long as every selection names a conversation of the
    collection, the collection is not empty and the current id is defined
    and names one of its entries.  Deleting the current conversation makes
    the first remaining entry current; when none remains, and after a
    confirmed [clearConversations], a fresh conversation is created and is
    current. *)
Theorem current_conversation_defined :
  forall (X : Type) (store : Storage X) (uuid : JsString) (now : Z)
         (trace : list (bool * Op X)),
    selects_known (initialize store uuid now) trace ->
    let s := run (initialize store uuid now) trace in
    current_defined s /\
    exists cur,
      currentConversationId s = Some cur /\
      (forall idle uuid' now',
          let s' := step s idle (DeleteConversation cur uuid' now') in
          current_defined s' /\
          match filter (id_is_not cur) (conversations s) with
          | first :: rest =>
              conversations s' = first :: rest /\
              currentConversationId s' = Some (id first)
          | [] =>
              conversations s' = [newConversation uuid' now'] /\
              currentConversationId s' = Some uuid'
          end) /\
      (forall idle uuid' now',
          let s' := step s idle (ClearConversations true uuid' now') in
          conversations s' = [newConversation uuid' now'] /\
          currentConversationId s' = Some uuid').
Proof.
  intros X store uuid now trace Hk s.
  assert (Hs : current_defined s).
  { apply run_current_defined; [|exact Hk]. apply initialize_current_defined. }
  split; [exact Hs|].
  destruct Hs as (_ & conv & _ & Hcur).
  exists (id conv). split; [exact Hcur|]. split.
  - intros idle uuid' now'. apply delete_current. exact Hcur.
  - intros idle uuid' now'. rewrite step_clear_all. simpl. auto.
Qed.

Lemma current_conversation_defined_witness :
  let s := run Samples.fresh
             [ (false, CreateNewConversation Samples.c2 1);
               (false, SelectConversation (Some Samples.c1));
               (false, AddMessageToConversation Samples.c1 Samples.hello 2) ] in
  current_defined s.
Proof.
  apply (@current_conversation_defined unit None Samples.c1 0
           [ (false, CreateNewConversation Samples.c2 1);
             (false, SelectConversation (Some Samples.c1));
             (false, AddMessageToConversation Samples.c1 Samples.hello 2) ]).
  simpl. repeat split.
  exists (newConversation Samples.c1 0). split; [right; left; reflexivity|reflexivity].
Defined.

(** Claim C1 as stated fails in two ways.  The hook exposes
    [setCurrentConversationId], which accepts an id of no conversation;
    deleting the only conversation then leaves the collection empty.  And
    [deleteConversation] reads [conversations] and [currentConversationId]
    of the render it was created in: called twice from one render, on the
    current conversation and then on the other one, it leaves the
    collection empty and the current id naming a deleted conversation. *)
Lemma collection_left_empty :
  (let s := run Samples.fresh
              [ (false, SelectConversation (Some Samples.nowhere));
                (false, DeleteConversation Samples.c1 Samples.c2 1) ] in
   conversations s = [] /\ ~ current_defined s) /\
  (let two := step Samples.fresh false (CreateNewConversation Samples.c2 1) in
   let s := render two false
              [ DeleteConversation Samples.c2 Samples.nowhere 2;
                DeleteConversation Samples.c1 Samples.nowhere 3 ] in
   map (@id unit) (conversations two) = [Samples.c2; Samples.c1] /\
   currentConversationId two = Some Samples.c2 /\
   conversations s = [] /\
   currentConversationId s = Some Samples.c1 /\
   ~ current_defined s).
Proof.
  split; [split|repeat split].
  - reflexivity.
  - intros [H _]. apply H. reflexivity.
  - intros [H _]. apply H. reflexivity.
Qed.

(** Claim C2, as the code has it.  In a collection whose ids are unique, a
    user message added to a conversation without messages while the
    component has an update pending, so that React runs the updater during
    the next render, sets the title to the first 30 code units of the
    content followed by three full stops when the content is longer than
    30, to the content itself otherwise, and to "New Chat" when that text
    is blank.  Any other message leaves the title as it is, whenever it is
    added. *)
Theorem first_user_message_titles :
  forall (X : Type) (s : State X) (c : JsString) (m : Message X) (now : Z)
         (n : nat) (conv : Conversation X),
    NoDup (ids (conversations s)) ->
    nth_error (conversations s) n = Some conv ->
    id conv = c ->
    (exists conv',
      nth_error (conversations (step s false (AddMessageToConversation c m now))) n
      = Some conv' /\
      id conv' = c /\
      messages conv' = messages conv ++ [m] /\
      lastUpdated conv' = TimeValue now /\
      title conv' =
        match messages conv, role m with
        | [], user => autoTitle (content m)
        | _, _ => title conv
        end) /\
    (forall idle,
        messages conv <> [] \/ role m <> user ->
        exists conv',
          nth_error (conversations (step s idle (AddMessageToConversation c m now))) n
          = Some conv' /\
          messages conv' = messages conv ++ [m] /\
          title conv' = title conv).
Proof.
  intros X s c m now n conv Hnd Hn Hid.
  pose proof (add_first_user_message s m now n Hnd Hn Hid) as Hrender.
  split; [exact Hrender|].
  intros [|] Hlater.
  - destruct (add_message_idle s m now n Hn Hid) as (conv' & H1 & _ & H2 & _ & H3).
    exists conv'. auto.
  - destruct Hrender as (conv' & H1 & _ & H2 & _ & H3).
    exists conv'. split; [exact H1|]. split; [exact H2|].
    rewrite H3. destruct (messages conv) as [|m0 ms]; [|reflexivity].
    destruct (role m); [|reflexivity].
    destruct Hlater as [H|H]; exfalso; apply H; reflexivity.
Qed.

Lemma first_user_message_titles_witness :
  exists conv',
    nth_error (conversations
                 (step Samples.fresh false
                    (AddMessageToConversation Samples.c1 Samples.long_question 5))) 0
    = Some conv' /\
    title conv' = repeat 97%N 30 ++ lit "...".
Proof.
  destruct (@first_user_message_titles unit Samples.fresh Samples.c1
              Samples.long_question 5 0 (newConversation Samples.c1 0))
    as ((conv' & H1 & _ & _ & _ & H2) & _).
  - simpl. constructor; [intros []|constructor].
  - reflexivity.
  - reflexivity.
  - exists conv'. split; [exact H1|]. rewrite H2. reflexivity.
Defined.

(** A store holding two conversations with the same id, the first with a
    message and the second without. *)
Definition twins : Storage unit :=
  Some [ {| saved_id := Samples.c1; saved_title := lit "kept";
            saved_messages := [Samples.hello];
            saved_lastUpdated := None; saved_metaInformation := None |};
         {| saved_id := Samples.c1; saved_title := lit "New Chat";
            saved_messages := [];
            saved_lastUpdated := None; saved_metaInformation := None |} ].

(** Claim C2 as stated fails in three ways.  On the ellipsis: the code
    appends three full stops, not the single character U+2026.  On an idle
    component (here after selecting the conversation that is current
    already, which changes nothing): React runs the updater when the
    handler is called, the title update dispatched from inside it is queued
    before the state the updater returns, and the title stays "New Chat".
    With two conversations of one id: a message added to the one that has
    messages retitles it, because the other one has none. *)
Lemma auto_title_differs :
  (let s := step Samples.fresh false
              (AddMessageToConversation Samples.c1 Samples.long_question 5) in
   map (@title unit) (conversations s) = [repeat 97%N 30 ++ [46; 46; 46]%N] /\
   map (@title unit) (conversations s)
     <> [firstn 30 (content Samples.long_question) ++ [8230%N]]) /\
  (let s := run Samples.fresh
              [ (false, SelectConversation (Some Samples.c1));
                (true, AddMessageToConversation Samples.c1 Samples.hello 5) ] in
   map (@messages unit) (conversations s) = [[Samples.hello]] /\
   map (@title unit) (conversations s) = [lit "New Chat"]) /\
  (let s := initialize twins Samples.c2 0 in
   let s' := step s false (AddMessageToConversation Samples.c1 Samples.hello 5) in
   map (@title unit) (conversations s) = [lit "kept"; lit "New Chat"] /\
   map (@title unit) (conversations s') = [lit "hello"; lit "hello"]).
Proof.
  split; [|split].
  - split; [reflexivity|discriminate].
  - split; reflexivity.
  - split; reflexivity.
Qed.

(** Claim C7, as the code has it.  [createNewConversation] puts a new
    conversation titled "New Chat", without messages, stamped with the
    current time and with empty meta information at the head of the
    collection, makes it current and returns its id; the collection grows
    by one. *)
Theorem createNewConversation_prepends :
  forall (X : Type) (s : State X) (idle : bool) (uuid : JsString) (now : Z),
    let s' := step s idle (CreateNewConversation uuid now) in
    conversations s' =
      {| id := uuid; title := lit "New Chat"; messages := [];
         lastUpdated := TimeValue now; metaInformation := Some (lit "") |}
      :: conversations s /\
    List.length (conversations s') = S (List.length (conversations s)) /\
    currentConversationId s' = Some uuid /\
    isInitialized s' = isInitialized s /\
    snd (createNewConversation (MessageExtra := X) uuid now) = uuid.
Proof. intros X s idle uuid now. rewrite step_create. simpl. repeat split. Qed.

(** Claim C7 as stated fails on the position: the new conversation is not
    appended, it comes first. *)
Lemma new_conversation_not_last :
  let s' := step Samples.fresh false (CreateNewConversation Samples.c2 1) in
  conversations s' = [newConversation Samples.c2 1; newConversation Samples.c1 0] /\
  conversations s' <> conversations Samples.fresh ++ [newConversation Samples.c2 1].
Proof. split; [reflexivity|discriminate]. Qed.

End ConversationResults.

(* ================================================================= *)
(** ** Persistence of the conversation collection *)

Section PersistenceResults.
Import Js Conversations ConversationFacts DateFacts.

(** A conversation as it comes back from the store: its messages have
    passed through JSON. *)
Definition reloaded (X : Type) (jsonExtra : X -> X) (conv : Conversation X)
  : Conversation X :=
  {| id := id conv; title := title conv;
     messages := map (jsonMessage jsonExtra) (messages conv);
     lastUpdated := lastUpdated conv;
     metaInformation := metaInformation conv |}.

Definition valid_date (d : Date) : Prop :=
  exists t, d = TimeValue t /\ valid_time t.

Lemma revive_stringify (X : Type) (jsonExtra : X -> X) (conv : Conversation X) :
  valid_date (lastUpdated conv) ->
  revive (stringify jsonExtra conv) = reloaded jsonExtra conv.
Proof.
  intros (t & Ht & Hv). unfold revive, stringify, reloaded. simpl.
  rewrite Ht. rewrite Date_of_json_toJSON by exact Hv. reflexivity.
Qed.

Lemma jsonMessage_identity (X : Type) (jsonExtra : X -> X) (m : Message X) :
  (forall e, jsonExtra e = e) -> jsonMessage jsonExtra m = m.
Proof. intros H. destruct m. unfold jsonMessage. simpl. rewrite H. reflexivity. Qed.

(** Claim C8, as the code has it.  Once initialized, a collection that is
    not empty and whose [lastUpdated] dates are valid is saved and loaded
    back with the same ids, titles, dates and meta information, its
    messages in order as JSON leaves them, and its first entry current;
    it is the same collection when JSON leaves the messages as they are. *)
Theorem reload_restores_collection :
  forall (X : Type) (jsonExtra : X -> X) (s : State X) (store : Storage X)
         (uuid : JsString) (now : Z),
    isInitialized s = true ->
    conversations s <> [] ->
    (forall conv, In conv (conversations s) -> valid_date (lastUpdated conv)) ->
    let s' := initialize (saveEffect jsonExtra s store) uuid now in
    conversations s' = map (reloaded jsonExtra) (conversations s) /\
    currentConversationId s' = option_map (@id X) (hd_error (conversations s)) /\
    ((forall e, jsonExtra e = e) -> conversations s' = conversations s).
Proof.
  intros X jsonExtra s store uuid now Hinit Hne Hvalid s'.
  assert (E : conversations s' = map (reloaded jsonExtra) (conversations s) /\
              currentConversationId s' = option_map (@id X) (hd_error (conversations s))).
  { subst s'. unfold saveEffect. rewrite Hinit.
    destruct (conversations s) as [|conv cs] eqn:Ecs; [contradiction|].
    unfold initialize. simpl. split; [|reflexivity].
    rewrite revive_stringify by (apply Hvalid; left; reflexivity).
    f_equal. rewrite map_map. apply map_ext_in.
    intros conv' Hin. apply revive_stringify. apply Hvalid. right; exact Hin. }
  destruct E as [E1 E2]. split; [exact E1|]. split; [exact E2|].
  intros Hid. rewrite E1. rewrite <- (map_id (conversations s)) at 2.
  apply map_ext. intros conv. destruct conv as [i t ms lu mi].
  unfold reloaded. simpl. f_equal.
  rewrite <- (map_id ms) at 2. apply map_ext.
  intros m. apply jsonMessage_identity. exact Hid.
Qed.

Lemma reload_restores_collection_witness :
  let s := run Samples.fresh
             [ (false, AddMessageToConversation Samples.c1 Samples.hello 1793608496123);
               (false, CreateNewConversation Samples.c2 1793608500000) ] in
  conversations (initialize (saveEffect (fun e => e) s None) Samples.nowhere 0)
  = conversations s.
Proof.
  intros s.
  refine (proj2 (proj2 (@reload_restores_collection unit (fun e => e) s None
                          Samples.nowhere 0 _ _ _)) _).
  - reflexivity.
  - discriminate.
  - intros conv [<-|[<-|[]]].
    + exists 1793608500000%Z. split; [reflexivity|]. unfold valid_time, maxTimeValue. lia.
    + exists 1793608496123%Z. split; [reflexivity|]. unfold valid_time, maxTimeValue. lia.
  - reflexivity.
Defined.

(** Claim C8 as stated fails for two collections: the empty one, which is
    loaded back as one fresh conversation, and one holding an invalid date,
    which is saved as [null] and loaded back as the epoch. *)
Lemma reload_of_empty_collection :
  (let s := run Samples.fresh
              [ (false, SelectConversation (Some Samples.nowhere));
                (false, DeleteConversation Samples.c1 Samples.c2 1) ] in
   conversations s = [] /\
   conversations (initialize (saveEffect (fun e => e) s None) Samples.c2 7)
   = [newConversation Samples.c2 7]) /\
  (let s := {| conversations :=
                 [ {| id := Samples.c1; title := lit "New Chat";
                      messages := @nil (Message unit);
                      lastUpdated := InvalidDate; metaInformation := None |} ];
               currentConversationId := Some Samples.c1;
               isInitialized := true |} in
   map (@lastUpdated unit)
     (conversations (initialize (saveEffect (fun e => e) s None) Samples.c2 7))
   = [TimeValue 0]).
Proof. split; [split|]; reflexivity. Qed.

End PersistenceResults.

(* ================================================================= *)
(** ** The upload lifecycle manager: main results *)

Section UploadResults.
Import Js Eff FileUpload FileUploadFacts.
Local Open Scope Z_scope.

(** Claim C3.  [uploadFiles] over N files sends one request after the
    other, each followed by the insertion of its record before the next
    request goes out; the N records carry the N ids drawn from [uuidv4],
    pairwise distinct as long as [uuidv4] does not repeat itself.  A record
    of the success path is inserted as [processing], and once 3000 ms have
    passed it is [completed], found by its id, whatever else was deleted,
    uploaded or edited in the meantime. *)
Theorem upload_batch_completes :
  forall (uuidv4 : nat -> JsString) (network : nat -> Exchange)
         (cat : DocumentCategory) (files : list File) (w : World),
    (forall i j, uuidv4 i = uuidv4 j -> i = j) ->
    let new_ids := map uuidv4 (seq (uuids w) (List.length files)) in
    let w' := final (uploadFiles uuidv4 network (Some files) cat w) in
      uploadFiles uuidv4 network (Some files) cat w = Normal tt w' /\
      log w' = log w ++ upload_log uuidv4 cat (uuids w) files /\
      NoDup new_ids /\
      ((forall k, calm (network k) = true) ->
         file_ids (uploadedFiles w') = rev new_ids ++ file_ids (uploadedFiles w)) /\
      forall pre file rest resp data,
        files = pre ++ file :: rest ->
        let wk := final (for_of pre (uploadOne uuidv4 network cat)
                           (with_uploading true w)) in
        fetch_result (network (fetches wk)) = Fulfilled resp ->
        ok resp = true ->
        json resp = Fulfilled data ->
        let i := uuidv4 (uuids wk) in
        let w1 := final (uploadOne uuidv4 network cat file wk) in
        hd_error (uploadedFiles w1) =
          Some {| id := i; name := file_name file; size := file_size file;
                  uploadDate := TimeValue (clock w1); success := true;
                  category := cat; processingStatus := processing;
                  documentId := document_id data |} /\
        forall acts,
          network_spares network i ->
          Forall (action_spares i) acts ->
          let w2 := act_all uuidv4 network acts w' in
          clock w1 + 3000 <= clock w2 ->
          present i w2 /\
          forall r, In r (uploadedFiles w2) -> id r = i ->
                    processingStatus r = completed.
Proof.
  intros uuidv4 network cat files w Hinj new_ids w'.
  assert (Ew : w' = with_uploading false
                      (after_batch uuidv4 network cat files (with_uploading true w)))
    by (unfold w'; rewrite uploadFiles_eq; reflexivity).
  clearbody w'. subst w'. split; [apply uploadFiles_eq|].
  set (w0 := with_uploading true w).
  destruct (after_batch_frame uuidv4 network cat files w0) as (_ & _ & Hlog & _).
  split; [exact Hlog|].
  split; [apply uuids_distinct; exact Hinj|].
  split.
  { intros Hcalm. simpl.
    apply (after_batch_ids uuidv4 network cat files w0 Hcalm). }
  intros pre file rest resp data Hfiles wk Hres Hok Hjson i w1.
  subst wk i w1. rewrite for_of_uploadOne in *. cbn [final] in *.
  set (wk := after_batch uuidv4 network cat pre w0) in *.
  rewrite uploadOne_eq. cbn [final].
  assert (Hout : snd (arrival network cat file wk) = Some data).
  { rewrite arrival_outcome, Hres, Hjson, Hok. reflexivity. }
  destruct (after_uploadOne_frame uuidv4 network cat file wk)
    as (Hu & _ & _ & _ & Hfs).
  destruct (after_uploadOne_core uuidv4 network cat file wk) as (Hclock & Htimer).
  destruct (arrival_frame network cat file wk) as (Hua & _).
  assert (Hentry : entry_for uuidv4 network cat file wk =
                   successEntry (uuidv4 (uuids wk)) file
                     (TimeValue (clock (fst (arrival network cat file wk)))) cat data).
  { unfold entry_for. destruct (arrival network cat file wk) as [wa res].
    simpl in *. rewrite Hout, Hua. reflexivity. }
  split.
  { rewrite Hfs, Hentry, Hclock. reflexivity. }
  intros acts Hn Hacts Hlate.
  set (w2 := act_all uuidv4 network acts
               (with_uploading false (after_batch uuidv4 network cat files w0))) in *.
  set (w1 := after_uploadOne uuidv4 network cat file wk) in *.
  assert (K1 : kept uuidv4 (uuids wk) (clock w1) w1).
  { split; [rewrite Hu; lia|]. split.
    - left. split; [|lia]. rewrite Hclock. apply (Htimer data Hout).
    - exists (entry_for uuidv4 network cat file wk). rewrite Hfs.
      split; [left; reflexivity|]. apply entry_for_id. }
  assert (K2 : kept uuidv4 (uuids wk) (clock w1) w2).
  { subst w2. apply kept_act_all; try assumption.
    apply (kept_same (w := after_batch uuidv4 network cat files w0)); auto.
    rewrite Hfiles. unfold after_batch. rewrite fold_left_app. simpl.
    apply kept_after_batch; assumption. }
  destruct K2 as (_ & [[_ Hc]|[_ Hall]] & Hp).
  - lia.
  - split; assumption.
Qed.

Lemma upload_batch_completes_witness :
  let net := Samples.always (Samples.accepted (lit "doc-1")) in
  let w' := final (uploadFiles Samples.numbered net
                     (Some [Samples.report; Samples.notes]) general Samples.idle) in
  let w2 := act_all Samples.numbered net
              [ Happens (DeleteFile (Samples.numbered 1)); Happens (Elapse 3000) ] w' in
  present (Samples.numbered 0) w2 /\
  forall r, In r (uploadedFiles w2) -> id r = Samples.numbered 0 ->
            processingStatus r = completed.
Proof.
  intros net w'.
  destruct (@upload_batch_completes Samples.numbered net general
              [Samples.report; Samples.notes] Samples.idle Samples.numbered_injective)
    as (_ & _ & _ & _ & H).
  refine (proj2 (H [] Samples.report [Samples.notes] _ _ eq_refl eq_refl eq_refl eq_refl)
            [ Happens (DeleteFile (Samples.numbered 1)); Happens (Elapse 3000) ] _ _ _).
  - intros k. split; [intros []|intros []].
  - repeat constructor. intros E. discriminate E.
  - vm_compute. discriminate.
Defined.

(** Claim C4.  [uploadFiles] never throws.  When, for one file of the
    batch, the transport fails, the backend rejects the upload or the body
    cannot be read, [uploadFiles] adds exactly one record to the collection
    as it stands at that moment, and goes on with the files that follow:
    [processingStatus] is [failed], [success] is false, there is no
    [documentId], and no completion is scheduled.  As long as no record is
    deleted while a request is in flight, the collection grows by one
    record for each file of the batch, failed or not; when every upload
    fails and nothing else happens meanwhile, the collection after the
    batch is the failed records, the latest first, in front of the
    collection before it. *)
Theorem upload_failure_absorbed :
  forall (uuidv4 : nat -> JsString) (network : nat -> Exchange),
    (forall files cat w,
        uploadFiles uuidv4 network files cat w
        = Normal tt (final (uploadFiles uuidv4 network files cat w))) /\
    (forall cat pre file rest w,
        let wk := final (for_of pre (uploadOne uuidv4 network cat)
                           (with_uploading true w)) in
        upload_failed (network (fetches wk)) = true ->
        let w1 := final (uploadOne uuidv4 network cat file wk) in
        let wm := happen_all (meanwhile (network (fetches wk))) wk in
          uploadedFiles w1 =
            {| id := uuidv4 (uuids wk); name := file_name file; size := file_size file;
               uploadDate := TimeValue (clock w1); success := false; category := cat;
               processingStatus := failed; documentId := None |}
            :: uploadedFiles wm /\
          timers w1 = timers wm /\
          final (uploadFiles uuidv4 network (Some (pre ++ file :: rest)) cat w) =
            with_uploading false
              (final (for_of rest (uploadOne uuidv4 network cat) w1))) /\
    (forall cat files w,
        (forall k, calm (network k) = true) ->
        List.length (uploadedFiles (final (uploadFiles uuidv4 network (Some files) cat w)))
        = (List.length files + List.length (uploadedFiles w))%nat) /\
    (forall cat files w,
        (forall k, upload_failed (network k) = true) ->
        (forall k, meanwhile (network k) = []) ->
        let w' := final (uploadFiles uuidv4 network (Some files) cat w) in
          uploadedFiles w' =
            failed_batch uuidv4 cat (TimeValue (clock w)) (uuids w) files
            ++ uploadedFiles w /\
          timers w' = timers w).
Proof.
  intros uuidv4 network. split; [|split; [|split]].
  - intros [files|] cat w.
    + rewrite uploadFiles_eq. reflexivity.
    + reflexivity.
  - intros cat pre file rest w wk Hfail w1 wm. subst w1 wm wk.
    rewrite for_of_uploadOne in *. cbn [final] in *.
    set (wk := after_batch uuidv4 network cat pre (with_uploading true w)) in *.
    rewrite uploadOne_eq. cbn [final].
    destruct (after_uploadOne_failed uuidv4 network cat file wk Hfail) as (Hf & Ht & _).
    split; [exact Hf|]. split; [exact Ht|].
    rewrite uploadFiles_eq, for_of_uploadOne. cbn [final].
    unfold after_batch. rewrite fold_left_app. reflexivity.
  - intros cat files w Hcalm. rewrite uploadFiles_eq. cbn [final].
    apply (after_batch_length uuidv4 network cat files (with_uploading true w) Hcalm).
  - intros cat files w Hfail Hsilent w'. subst w'.
    rewrite uploadFiles_eq. cbn [final].
    destruct (after_batch_all_failed uuidv4 network cat files (with_uploading true w)
                Hfail Hsilent) as (Hf & Ht & _).
    split; [exact Hf|exact Ht].
Qed.

Lemma upload_failure_absorbed_witness :
  let w' := final (uploadFiles Samples.numbered (Samples.always Samples.rejected)
                     (Some [Samples.report; Samples.notes]) general Samples.idle) in
  map id (uploadedFiles w') = [Samples.numbered 1; Samples.numbered 0] /\
  map name (uploadedFiles w') = [lit "notes.txt"; lit "report.pdf"] /\
  map processingStatus (uploadedFiles w') = [failed; failed] /\
  map success (uploadedFiles w') = [false; false] /\
  map documentId (uploadedFiles w') = [None; None] /\
  timers w' = [].
Proof.
  intros w'.
  destruct (proj2 (proj2 (proj2 (@upload_failure_absorbed Samples.numbered
                                   (Samples.always Samples.rejected))))
              general [Samples.report; Samples.notes] Samples.idle
              (fun k => eq_refl) (fun k => eq_refl))
    as (Hfiles & Htimers).
  subst w'. rewrite Hfiles, Htimers. repeat split.
Defined.

(** Claim C5, as the code has it.  For a record without [documentId], or
    whose [documentId] is the empty string, [deleteFileFromKnowledgeBase]
    removes the record and sends nothing.  For a record with a non-empty
    [documentId] it sends one DELETE for that id and removes the record
    only when the response is ok; on any other response, and when the
    request fails, the collection stays as it is. *)
Theorem remote_delete_guarded :
  forall (network : nat -> Exchange) (fileId : JsString) (w : World)
         (file : UploadedFile),
    find (has_id fileId) (uploadedFiles w) = Some file ->
    let w' := final (deleteFileFromKnowledgeBase network fileId w) in
      deleteFileFromKnowledgeBase network fileId w = Normal tt w' /\
      let removed fs := filter (fun f => negb (has_id fileId f)) fs in
      let sent_nothing :=
        log w' = log w /\ fetches w' = fetches w /\
        uploadedFiles w' = removed (uploadedFiles w) in
      match documentId file with
      | None => sent_nothing
      | Some docId =>
          if truthy docId then
            let ex := network (fetches w) in
            let fs := uploadedFiles (happen_all (fetch_meanwhile ex) w) in
            log w' = log w ++ [Requested (DeleteDocument docId)] /\
            uploadedFiles w' =
              match fetch_result ex with
              | Fulfilled resp => if ok resp then removed fs else fs
              | Rejected _ => fs
              end
          else sent_nothing
      end.
Proof.
  intros network fileId w file Hfind w'. subst w'.
  rewrite deleteFileFromKnowledgeBase_eq. cbn [final]. split; [reflexivity|].
  unfold remote_key. rewrite Hfind. cbv zeta.
  destruct (documentId file) as [docId|]; [|simpl; auto].
  destruct (truthy docId); [|simpl; auto].
  destruct (after_fetch_core network (DeleteDocument docId) w) as (Ef & _).
  assert (Hlog : log (after_fetch network (DeleteDocument docId) w)
                 = log w ++ [Requested (DeleteDocument docId)]).
  { unfold after_fetch.
    destruct (happen_all_frame (fetch_meanwhile (network (fetches w)))
                (next_fetch (logged (Requested (DeleteDocument docId)) w)))
      as (_ & _ & -> & _). reflexivity. }
  destruct (fetch_result (network (fetches w))) as [resp|e].
  - destruct (ok resp); simpl; rewrite Hlog, Ef; auto.
  - rewrite Hlog, Ef. auto.
Qed.

Lemma remote_delete_guarded_witness :
  let w := Samples.holding [Samples.stored (lit "f-1") (Some (lit "doc-1"))] in
  let kept_on_failure :=
    final (deleteFileFromKnowledgeBase (Samples.always Samples.unreachable) (lit "f-1") w) in
  uploadedFiles kept_on_failure = uploadedFiles w /\
  log kept_on_failure = [Requested (DeleteDocument (lit "doc-1"))].
Proof.
  intros w kept_on_failure.
  destruct (@remote_delete_guarded (Samples.always Samples.unreachable) (lit "f-1") w
              (Samples.stored (lit "f-1") (Some (lit "doc-1"))) eq_refl)
    as (_ & Hlog & Hfiles).
  split.
  - exact Hfiles.
  - exact Hlog.
Defined.

(** Claim C5 as stated fails for a record whose [documentId] is the empty
    string: [!file.documentId] holds, nothing is sent, and the record is
    removed although the backend could not be reached. *)
Lemma empty_documentId_deleted_locally :
  let w := Samples.holding [Samples.stored (lit "f-1") (Some (lit ""))] in
  let w' := final (deleteFileFromKnowledgeBase
                     (Samples.always Samples.unreachable) (lit "f-1") w) in
  map documentId (uploadedFiles w) = [Some []] /\
  uploadedFiles w' = [] /\ log w' = [] /\ fetches w' = 0%nat.
Proof. repeat split. Qed.

(** Claim C9.  When the record of a successful upload has been deleted,
    the completion callback of that upload changes nothing, whatever
    happened after the deletion; in general it keeps the number and order
    of the records and leaves every record with another id as it is. *)
Theorem completion_after_delete_is_noop :
  forall (newFileId : JsString) (es : list Event) (w : World),
    let w' := happen_all es (deleteFile newFileId w) in
    completion newFileId w' = w' /\
    (forall w0 n f,
        nth_error (uploadedFiles w0) n = Some f ->
        id f <> newFileId ->
        nth_error (uploadedFiles (completion newFileId w0)) n = Some f) /\
    (forall w0,
        List.length (uploadedFiles (completion newFileId w0))
        = List.length (uploadedFiles w0)).
Proof.
  intros newFileId es w w'. split; [|split].
  - apply completion_unmatched. subst w'.
    apply happen_all_no_new_id. intros r Hr.
    eapply without_has_none. exact Hr.
  - intros w0 n f Hn Hid. simpl.
    fold (complete_in newFileId (uploadedFiles w0)).
    rewrite (complete_in_nth _ _ _ Hn).
    apply has_id_false in Hid. rewrite Hid. reflexivity.
  - intros w0. simpl. apply length_map.
Qed.

Lemma completion_after_delete_is_noop_witness :
  let w := Samples.holding [ Samples.stored (lit "f-1") None;
                             Samples.stored (lit "f-2") None ] in
  nth_error (uploadedFiles (completion (lit "f-1") w)) 1
  = Some (Samples.stored (lit "f-2") None).
Proof.
  intros w.
  apply (proj1 (proj2 (@completion_after_delete_is_noop (lit "f-1") [] w)) w 1%nat).
  - reflexivity.
  - discriminate.
Defined.

End UploadResults.

(* ================================================================= *)
(** ** The knowledge-base listing: main result *)

Section ListingResults.
Import Js Eff FileList FileListFacts.

(** Claim C6.  [fetchFiles] ends with [isLoading] false and never throws.
    On an ok response with a readable body the held files are replaced by
    one entry per remote entry, in order, with the remote id, the remote
    name as [name] and as [originalName], and the ISO text of the clock
    reading taken for that entry as [dateAdded]; the error is cleared.  On
    any other response, on an unreadable body and when the request fails,
    the held files are emptied and an error message is recorded. *)
Theorem fetchFiles_replaces_or_clears :
  forall (clock : nat -> Z) (exchange : Outcome Response) (w : World),
    let w' := final (fetchFiles clock exchange w) in
      fetchFiles clock exchange w = Normal tt w' /\
      isLoading w' = false /\
      match exchange with
      | Fulfilled resp =>
          if ok resp then
            match json resp with
            | Fulfilled data =>
                error w' = None /\
                List.length (files w') = List.length (files_of data) /\
                forall n x,
                  nth_error (files_of data) n = Some x ->
                  nth_error (files w') n =
                  Some {| id := entry_id x; name := entry_name x;
                          originalName := entry_name x;
                          dateAdded := Some (toISOString (clock (dates w + n))) |}
            | Rejected e => files w' = [] /\ error w' = Some (message_of e)
            end
          else files w' = [] /\ error w' = Some (lit "Failed to fetch files")
      | Rejected e => files w' = [] /\ error w' = Some (message_of e)
      end.
Proof.
  intros clock exchange w w'. subst w'.
  rewrite fetchFiles_eq. cbn [final]. split; [reflexivity|].
  destruct exchange as [resp|e]; [|simpl; auto].
  destruct (ok resp); [|simpl; auto].
  destruct (json resp) as [data|e]; [|simpl; auto].
  simpl. repeat split.
  - apply stamped_length.
  - intros n x Hn. apply stamped_nth. exact Hn.
Qed.

Lemma fetchFiles_replaces_or_clears_witness :
  let listing :=
    Fulfilled {| ok := true;
                 json := Fulfilled
                   {| files_of := [ {| entry_id := lit "doc-1";
                                       entry_name := lit "report.pdf" |} ];
                      total_files := 1 |} |} in
  let w := {| files := []; isLoading := true; error := None; dates := 0 |} in
  files (final (fetchFiles (fun _ => 0%Z) listing w)) =
  [ {| id := lit "doc-1"; name := lit "report.pdf"; originalName := lit "report.pdf";
       dateAdded := Some (lit "1970-01-01T00:00:00.000Z") |} ].
Proof.
  intros listing w.
  destruct (@fetchFiles_replaces_or_clears (fun _ => 0%Z) listing w)
    as (_ & _ & _ & Hlen & Hnth).
  specialize (Hnth 0%nat _ eq_refl).
  destruct (files (final (fetchFiles (fun _ => 0%Z) listing w))) as [|f [|f' fs]];
    try discriminate.
  injection Hnth as ->. reflexivity.
Defined.

End ListingResults.

(* ================================================================= *)
(** ** Handlers given an id that names nothing *)

Section FrameResults.
Import Js Eff.

(** Claim C10.  With an id no conversation has, [updateConversationTitle],
    [updateConversationMetaInformation] and [addMessageToConversation]
    leave the conversation collection as it is; with an id no uploaded file
    has, [updateFileCategory] and [deleteFile] leave the uploaded-file
    collection, and the rest of the hook state, as it is. *)
Theorem unknown_id_is_noop :
  forall (X : Type) (s : Conversations.State X) (c : JsString)
         (w : FileUpload.World) (fileId : JsString),
    (forall conv, In conv (Conversations.conversations s) ->
                  Conversations.id conv <> c) ->
    (forall f, In f (FileUpload.uploadedFiles w) -> FileUpload.id f <> fileId) ->
    (forall idle t,
        Conversations.conversations
          (Conversations.step s idle (Conversations.UpdateConversationTitle c t))
        = Conversations.conversations s) /\
    (forall idle meta,
        Conversations.conversations
          (Conversations.step s idle
             (Conversations.UpdateConversationMetaInformation c meta))
        = Conversations.conversations s) /\
    (forall idle m now,
        Conversations.conversations
          (Conversations.step s idle (Conversations.AddMessageToConversation c m now))
        = Conversations.conversations s) /\
    (forall cat, FileUpload.updateFileCategory fileId cat w = w) /\
    FileUpload.deleteFile fileId w = w.
Proof.
  intros X s c w fileId Hc Hf.
  destruct (ConversationFacts.unknown_conversation_id s Hc) as (H1 & H2 & H3).
  repeat split; try assumption.
  - intros cat. unfold FileUpload.updateFileCategory.
    rewrite <- (FileUploadFacts.with_files_id w) at 2.
    apply FileUploadFacts.with_files_ext.
    apply FileUploadFacts.map_unmatched_file. exact Hf.
  - unfold FileUpload.deleteFile.
    rewrite <- (FileUploadFacts.with_files_id w) at 2.
    apply FileUploadFacts.with_files_ext.
    apply FileUploadFacts.filter_unmatched. exact Hf.
Qed.

Lemma unknown_id_is_noop_witness :
  Conversations.conversations
    (Conversations.step Samples.fresh true
       (Conversations.AddMessageToConversation Samples.nowhere Samples.hello 3))
  = Conversations.conversations Samples.fresh /\
  FileUpload.deleteFile (lit "f-9")
    (Samples.holding [Samples.stored (lit "f-1") None])
  = Samples.holding [Samples.stored (lit "f-1") None].
Proof.
  destruct (@unknown_id_is_noop unit Samples.fresh Samples.nowhere
              (Samples.holding [Samples.stored (lit "f-1") None]) (lit "f-9"))
    as (_ & _ & H3 & _ & H5).
  - intros conv [<-|[]]. discriminate.
  - intros f [<-|[]]. discriminate.
  - split; [apply H3|exact H5].
Defined.

End FrameResults.

(* ================================================================= *)
(** ** More of [useConversations] *)

Module ConversationsMore.
Import Js Conversations ConversationFacts.

Section More.
Variable X : Type.
Implicit Types (s : State X) (conv : Conversation X) (cs : list (Conversation X)).

(** [conversations.find(conv => conv.id === currentConversationId)], the
    [currentConversation] the hook returns. *)
Definition currentConversation s : option (Conversation X) :=
  find (fun conv => current_is (currentConversationId s) (id conv)) (conversations s).

(** The operations that edit conversations in place. *)
Definition is_edit (op : Op X) : bool :=
  match op with
  | UpdateConversationTitle _ _ | UpdateConversationMetaInformation _ _
  | AddMessageToConversation _ _ _ | ClearCurrentConversation _ _ => true
  | _ => false
  end.

(** Every conversation created along the trace gets an id not in use. *)
Fixpoint creates_fresh s (trace : list (bool * Op X)) : Prop :=
  match trace with
  | [] => True
  | c :: trace' =>
      match snd c with
      | CreateNewConversation uuid _ => ~ In uuid (ids (conversations s))
      | _ => True
      end /\ creates_fresh (step s (fst c) (snd c)) trace'
  end.

Definition has_text (t : JsString) : bool :=
  existsb (fun c => negb (is_white_space c)) t.

(** *** Blank titles *)

Lemma trim_start_nil (t : JsString) :
  trim_start t = [] <-> forallb is_white_space t = true.
Proof.
  induction t as [|c t IH]; simpl.
  - tauto.
  - destruct (is_white_space c); simpl.
    + exact IH.
    + split; discriminate.
Qed.

Lemma trim_start_head (t : JsString) c t' :
  trim_start t = c :: t' -> is_white_space c = false.
Proof.
  induction t as [|c0 t IH]; simpl.
  - discriminate.
  - destruct (is_white_space c0) eqn:E.
    + exact IH.
    + intros H. injection H as <- _. exact E.
Qed.

Lemma trim_start_suffix (t : JsString) :
  forallb is_white_space t = false -> forallb is_white_space (trim_start t) = false.
Proof.
  induction t as [|c t IH]; simpl.
  - discriminate.
  - destruct (is_white_space c) eqn:E; simpl.
    + exact IH.
    + rewrite E. reflexivity.
Qed.

Lemma forallb_rev (p : N -> bool) (t : JsString) :
  forallb p (rev t) = forallb p t.
Proof.
  induction t as [|c t IH]; simpl.
  - reflexivity.
  - rewrite forallb_app. simpl. rewrite IH, andb_true_r. apply andb_comm.
Qed.

Lemma has_text_forallb (t : JsString) :
  has_text t = negb (forallb is_white_space t).
Proof.
  unfold has_text. induction t as [|c t IH]; simpl.
  - reflexivity.
  - rewrite IH. destruct (is_white_space c); reflexivity.
Qed.

Lemma truthy_trim (t : JsString) : truthy (trim t) = has_text t.
Proof.
  rewrite has_text_forallb. unfold trim.
  destruct (forallb is_white_space t) eqn:E.
  - apply trim_start_nil in E. rewrite E. reflexivity.
  - apply trim_start_suffix in E. rewrite <- forallb_rev in E.
    destruct (trim_start (rev (trim_start t))) as [|c r] eqn:Er.
    + apply trim_start_nil in Er. congruence.
    + simpl. destruct (rev r ++ [c]) eqn:Ea; [|reflexivity].
      apply app_eq_nil in Ea. destruct Ea as [_ Ea]. discriminate.
Qed.

(** Renaming a conversation stores the title as typed, surrounding blanks
    included, unless it has no character other than white space, in which
    case "New Chat" is stored; messages, meta information and [lastUpdated]
    of the renamed conversation stay as they were. *)
Theorem rename_keeps_text_or_falls_back :
  forall s (idle : bool) (c t : JsString) (n : nat) conv,
    nth_error (conversations s) n = Some conv ->
    id conv = c ->
    exists conv',
      nth_error (conversations (step s idle (UpdateConversationTitle c t))) n
      = Some conv' /\
      title conv' = (if has_text t then t else lit "New Chat") /\
      id conv' = c /\ messages conv' = messages conv /\
      lastUpdated conv' = lastUpdated conv /\
      metaInformation conv' = metaInformation conv.
Proof.
  intros s idle c t n conv Hn Hid. rewrite step_title. simpl.
  eexists. split.
  - unfold titleUpdater. apply map_nth_error. exact Hn.
  - apply str_eqb_eq in Hid. rewrite Hid. simpl. rewrite truthy_trim. auto.
    apply str_eqb_eq in Hid. auto.
Qed.

(** *** The initialization latch *)

Lemma step_isInitialized s idle (op : Op X) :
  isInitialized (step s idle op) = isInitialized s.
Proof.
  destruct op as [u n|v|c t|c mi|c u n|c m n|b u n|b n].
  - rewrite step_create. reflexivity.
  - rewrite step_select. reflexivity.
  - rewrite step_title. reflexivity.
  - rewrite step_meta. reflexivity.
  - destruct (current_is (currentConversationId s) c) eqn:Hc.
    + destruct (filter (id_is_not c) (conversations s)) as [|first rest] eqn:E.
      * rewrite (step_delete_current_last _ idle _ u n Hc E). reflexivity.
      * rewrite (step_delete_current_some _ idle _ u n Hc E). reflexivity.
    + rewrite (step_delete_other _ idle _ u n Hc). reflexivity.
  - destruct idle; [rewrite step_add_idle|rewrite step_add]; reflexivity.
  - destruct b; [rewrite step_clear_all|rewrite step_declined_clear_all]; reflexivity.
  - destruct b; [rewrite step_clear_current|rewrite step_declined_clear_current];
      reflexivity.
Qed.

Lemma run_isInitialized (trace : list (bool * Op X)) : forall s,
  isInitialized (run s trace) = isInitialized s.
Proof.
  induction trace as [|[idle op] trace IH]; intros s; simpl.
  - reflexivity.
  - rewrite IH. apply step_isInitialized.
Qed.

(** *** In-place edits *)

(** Renaming, editing the meta information, adding a message and clearing
    the current conversation never add, remove or reorder conversations and
    never move the selection. *)
Theorem edits_keep_collection_shape :
  forall s (idle : bool) (op : Op X),
    is_edit op = true ->
    map (@id X) (conversations (step s idle op)) = map (@id X) (conversations s) /\
    List.length (conversations (step s idle op)) = List.length (conversations s) /\
    currentConversationId (step s idle op) = currentConversationId s /\
    isInitialized (step s idle op) = isInitialized s.
Proof.
  intros s idle op Hop.
  assert (Hst : match op with
                | UpdateConversationTitle _ _ | UpdateConversationMetaInformation _ _
                | AddMessageToConversation _ _ _ | ClearCurrentConversation _ _ => True
                | _ => False
                end) by (destruct op; try discriminate; exact I).
  destruct (step_ids_stable s idle op Hst) as [Hids Hcur]. unfold ids in Hids.
  split; [exact Hids|]. split.
  - rewrite <- (length_map (@id X)), Hids. apply length_map.
  - split; [exact Hcur|]. apply step_isInitialized.
Qed.

(** Adding a message leaves every conversation with another id exactly as it
    was, at the same position. *)
Theorem addMessage_leaves_others :
  forall s (idle : bool) (c : JsString) (m : Message X) (now : Z) (n : nat) conv,
    nth_error (conversations s) n = Some conv ->
    id conv <> c ->
    nth_error (conversations (step s idle (AddMessageToConversation c m now))) n
    = Some conv.
Proof.
  intros s idle c m now n conv Hn Hid. apply str_eqb_neq in Hid.
  assert (E : nth_error (map (fun conv0 => fst (addMessageEntry c m now conv0))
                           (conversations s)) n = Some conv).
  { rewrite (map_nth_error _ _ _ Hn). unfold addMessageEntry. rewrite Hid. reflexivity. }
  destruct idle; [rewrite step_add_idle; exact E|].
  rewrite step_add_conversations. cbv zeta.
  destruct (flat_map _ (conversations s)); [exact E|].
  unfold titleUpdater. rewrite (map_nth_error _ _ _ E). rewrite Hid. reflexivity.
Qed.

(** After the current conversation has been cleared, the user message
    added next is its only message and the meta information is still there.
    The message titles the conversation again when it is added while the
    component has an update pending, so that React runs the updater during
    the render; added on an idle component, it leaves the title "New Chat",
    because the title update dispatched from inside the updater is
    replaced by the state the updater returns. *)
Theorem clearing_rearms_auto_title :
  forall s (idle idle' : bool) (c : JsString) (m : Message X) (now now' : Z)
         (n : nat) conv,
    NoDup (ids (conversations s)) ->
    currentConversationId s = Some c ->
    nth_error (conversations s) n = Some conv ->
    id conv = c ->
    role m = user ->
    let cleared := step s idle (ClearCurrentConversation true now) in
    exists conv',
      nth_error
        (conversations (step cleared idle' (AddMessageToConversation c m now'))) n
      = Some conv' /\
      messages conv' = [m] /\
      title conv' =
        (if idle' then lit "New Chat" else autoTitle (content m)) /\
      metaInformation conv' = metaInformation conv.
Proof.
  intros s idle idle' c m now now' n conv Hnd Hcur Hn Hid Hrole cleared.
  pose proof Hid as Hid'. subst c.
  assert (Hshape : ids (conversations cleared) = ids (conversations s)).
  { apply (step_ids_stable s idle (ClearCurrentConversation true now) I). }
  set (blank := {| id := id conv; title := lit "New Chat"; messages := [];
                   lastUpdated := TimeValue now;
                   metaInformation := metaInformation conv |} : Conversation X).
  assert (Hn' : nth_error (conversations cleared) n = Some blank).
  { unfold cleared. rewrite step_clear_current. simpl.
    rewrite (map_nth_error _ _ _ Hn). rewrite Hcur. simpl.
    rewrite str_eqb_refl. reflexivity. }
  assert (E : nth_error (map (fun conv0 => fst (addMessageEntry (id conv) m now' conv0))
                           (conversations cleared)) n
              = Some (fst (addMessageEntry (id conv) m now' blank)))
    by (exact (map_nth_error (fun conv0 => fst (addMessageEntry (id conv) m now' conv0))
                 _ _ Hn')).
  assert (Hmeta : metaInformation (fst (addMessageEntry (id conv) m now' blank))
                  = metaInformation conv).
  { unfold addMessageEntry. destruct (str_eqb (id blank) (id conv)); reflexivity. }
  destruct idle'.
  { destruct (@add_message_idle X cleared (id conv) m now' n blank Hn' eq_refl)
      as (conv' & H1 & _ & H3 & _ & H5).
    exists conv'. split; [exact H1|]. split; [exact H3|]. split; [exact H5|].
    revert H1. rewrite step_add_idle. simpl. rewrite E.
    intros H. injection H as <-. exact Hmeta. }
  destruct (@add_first_user_message X cleared (id conv) m now' n blank) as
    (conv' & H1 & _ & H3 & _ & H5).
  - rewrite Hshape. exact Hnd.
  - exact Hn'.
  - reflexivity.
  - exists conv'. split; [exact H1|]. split; [exact H3|].
    simpl in H5. rewrite Hrole in H5. split; [exact H5|].
    (* the meta information travels through both steps *)
    clear H3 H5. revert H1.
    rewrite step_add_conversations. cbv zeta.
    destruct (flat_map _ (conversations cleared)).
    + rewrite E. intros H. injection H as <-. exact Hmeta.
    + unfold titleUpdater. rewrite (map_nth_error _ _ _ E). intros H.
      injection H as <-.
      destruct (str_eqb (id (fst (addMessageEntry (id conv) m now' blank))) (id conv));
        exact Hmeta.
Qed.

(** *** Unique ids *)

Lemma ids_filter_NoDup (p : Conversation X -> bool) cs :
  NoDup (ids cs) -> NoDup (ids (filter p cs)).
Proof.
  unfold ids. induction cs as [|conv cs IH]; simpl; intros H.
  - constructor.
  - inversion H as [|? ? Hnotin Hnd]; subst.
    destruct (p conv); simpl.
    + constructor; [|apply IH; exact Hnd].
      intros Hin. apply Hnotin. apply in_map_iff in Hin.
      destruct Hin as (conv' & E & Hin). apply filter_In in Hin.
      rewrite <- E. apply in_map. apply Hin.
    + apply IH. exact Hnd.
Qed.

Lemma step_keeps_ids_unique s idle (op : Op X) :
  NoDup (ids (conversations s)) ->
  match op with
  | CreateNewConversation uuid _ => ~ In uuid (ids (conversations s))
  | _ => True
  end ->
  NoDup (ids (conversations (step s idle op))).
Proof.
  intros Hnd Hfresh.
  destruct op as [u n|v|c t|c mi|c u n|c m n|b u n|b n].
  - rewrite step_create. simpl. constructor; assumption.
  - rewrite step_select. exact Hnd.
  - destruct (step_ids_stable s idle (UpdateConversationTitle c t) I) as [-> _]. exact Hnd.
  - destruct (step_ids_stable s idle (UpdateConversationMetaInformation c mi) I) as [-> _].
    exact Hnd.
  - destruct (current_is (currentConversationId s) c) eqn:Hc.
    + destruct (filter (id_is_not c) (conversations s)) as [|first rest] eqn:E.
      * rewrite (step_delete_current_last _ idle _ u n Hc E). simpl.
        constructor; [intros []|constructor].
      * rewrite (step_delete_current_some _ idle _ u n Hc E).
        change (NoDup (ids (first :: rest))).
        rewrite <- E. apply ids_filter_NoDup. exact Hnd.
    + rewrite (step_delete_other _ idle _ u n Hc). simpl.
      apply ids_filter_NoDup. exact Hnd.
  - destruct (step_ids_stable s idle (AddMessageToConversation c m n) I) as [-> _].
    exact Hnd.
  - destruct b.
    + rewrite step_clear_all. simpl. constructor; [intros []|constructor].
    + rewrite step_declined_clear_all. exact Hnd.
  - destruct (step_ids_stable s idle (ClearCurrentConversation b n) I) as [-> _].
    exact Hnd.
Qed.

(** Starting from a snapshot without duplicate ids, the ids of the
    collection stay pairwise distinct as long as [uuidv4] hands every
    explicitly created conversation an id not in use. *)
Theorem conversation_ids_stay_unique :
  forall (store : Storage X) (uuid : JsString) (now : Z) (trace : list (bool * Op X)),
    match store with
    | Some saved => NoDup (map (@saved_id X) saved)
    | None => True
    end ->
    creates_fresh (initialize store uuid now) trace ->
    NoDup (ids (conversations (run (initialize store uuid now) trace))).
Proof.
  intros store uuid now trace Hstore.
  assert (H0 : NoDup (ids (conversations (initialize store uuid now)))).
  { destruct store as [[|first rest]|]; unfold initialize; simpl.
    - constructor; [intros []|constructor].
    - unfold ids. simpl. rewrite map_map. simpl. exact Hstore.
    - constructor; [intros []|constructor]. }
  revert H0. generalize (initialize store uuid now).
  induction trace as [|[idle op] trace IH]; intros s H0 Hfresh; simpl.
  - exact H0.
  - destruct Hfresh as [Hop Hrest]. apply IH; [|exact Hrest].
    apply step_keeps_ids_unique; [exact H0|].
    destruct op; try exact I. exact Hop.
Qed.

(** The snapshot is loaded once: whatever the user does after the first
    load, the load effect dispatches nothing when it runs again, even on a
    changed store, and from then on the save effect replaces the store by the
    snapshot of the collection; before the first load the save effect leaves
    the store alone. *)
Theorem snapshot_loaded_once :
  forall (jsonExtra : X -> X) (store : Storage X) (uuid : JsString) (now : Z)
         (trace : list (bool * Op X)) (store' : Storage X) (uuid' : JsString)
         (now' : Z) (idle : bool),
    let s := run (initialize store uuid now) trace in
    isInitialized s = true /\
    commit s (snd (dispatch_all s (idle, []) (loadEffect s store' uuid' now'))) = s /\
    saveEffect jsonExtra s store' = Some (map (stringify jsonExtra) (conversations s)) /\
    saveEffect jsonExtra initialState store' = store'.
Proof.
  intros jsonExtra store uuid now trace store' uuid' now' idle s.
  assert (Hi : isInitialized s = true).
  { subst s. rewrite run_isInitialized. apply initialize_isInitialized. }
  split; [exact Hi|]. split; [|split].
  - unfold loadEffect. rewrite Hi. apply commit_nil.
  - unfold saveEffect. rewrite Hi. reflexivity.
  - reflexivity.
Qed.

(** *** The current conversation *)

Lemma currentConversation_found s :
  current_defined s ->
  exists conv,
    currentConversation s = Some conv /\ In conv (conversations s) /\
    currentConversationId s = Some (id conv).
Proof.
  intros (_ & conv & Hin & Hcur). unfold currentConversation.
  destruct (find (fun conv0 => current_is (currentConversationId s) (id conv0))
              (conversations s)) as [found|] eqn:E.
  - apply find_some in E. destruct E as [Hf Hc].
    exists found. split; [reflexivity|]. split; [exact Hf|].
    destruct (currentConversationId s) as [cur|]; [|discriminate].
    simpl in Hc. apply str_eqb_eq in Hc. rewrite Hc. reflexivity.
  - exfalso. pose proof (find_none _ _ E conv Hin) as Hc. simpl in Hc.
    rewrite Hcur in Hc. simpl in Hc. rewrite str_eqb_refl in Hc. discriminate.
Qed.

(** With one handler call per render, and as long as every selection names
    a conversation of the collection, the hook returns a current
    conversation after every render, and it is the entry the current id
    names; selecting an id of no conversation, or no id, leaves the hook
    without a current conversation. *)
Theorem current_conversation_lookup :
  forall (store : Storage X) (uuid : JsString) (now : Z) (trace : list (bool * Op X)),
    selects_known (initialize store uuid now) trace ->
    let s := run (initialize store uuid now) trace in
    (exists conv,
        currentConversation s = Some conv /\ In conv (conversations s) /\
        currentConversationId s = Some (id conv)) /\
    (forall idle, currentConversation (step s idle (SelectConversation None)) = None) /\
    (forall idle unknown,
        ~ In unknown (ids (conversations s)) ->
        currentConversation (step s idle (SelectConversation (Some unknown))) = None).
Proof.
  intros store uuid now trace Hk s. split; [|split].
  - apply currentConversation_found.
    apply run_current_defined; [apply initialize_current_defined|exact Hk].
  - intros idle. unfold currentConversation. rewrite step_select. simpl.
    induction (conversations s) as [|conv cs IH]; [reflexivity|exact IH].
  - intros idle unknown Hu. unfold currentConversation. rewrite step_select. simpl.
    destruct (find (fun conv => str_eqb unknown (id conv)) (conversations s))
      as [found|] eqn:E; [|reflexivity].
    apply find_some in E. destruct E as [Hf Hc]. apply str_eqb_eq in Hc.
    exfalso. apply Hu. rewrite Hc. unfold ids. apply in_map. exact Hf.
Qed.

(** *** The stored snapshot *)

(** A snapshot the hook has written is not changed by loading it and saving
    it again: reloading the page without touching anything leaves the store
    as it is, provided a second trip through JSON changes nothing in a
    message. *)
Theorem saved_snapshot_is_stable :
  forall (jsonExtra : X -> X) s (store : Storage X) (uuid : JsString) (now : Z),
    (forall e, jsonExtra (jsonExtra e) = jsonExtra e) ->
    isInitialized s = true ->
    conversations s <> [] ->
    (forall conv, In conv (conversations s) -> valid_date (lastUpdated conv)) ->
    let store1 := saveEffect jsonExtra s store in
    saveEffect jsonExtra (initialize store1 uuid now) store1 = store1.
Proof.
  intros jsonExtra s store uuid now Hidem Hinit Hne Hvalid store1.
  assert (Hagain : forall conv, In conv (conversations s) ->
            stringify jsonExtra (revive (stringify jsonExtra conv))
            = stringify jsonExtra conv).
  { intros conv Hin. rewrite revive_stringify by (apply Hvalid; exact Hin).
    unfold stringify, reloaded. simpl. f_equal.
    rewrite map_map. apply map_ext. intros m. unfold jsonMessage. simpl.
    rewrite Hidem. reflexivity. }
  assert (E1 : saveEffect jsonExtra s store
               = Some (map (stringify jsonExtra) (conversations s)))
    by (unfold saveEffect; rewrite Hinit; reflexivity).
  subst store1. rewrite E1.
  unfold saveEffect. rewrite initialize_isInitialized. f_equal.
  destruct (conversations s) as [|conv cs] eqn:Ecs; [contradiction|].
  unfold initialize. simpl. f_equal.
  - apply Hagain. left; reflexivity.
  - rewrite !map_map. apply map_ext_in. intros conv' Hin.
    apply Hagain. right; exact Hin.
Qed.

End More.

(** *** Instances *)

Definition two_chats : State unit :=
  run Samples.fresh
    [ (false, AddMessageToConversation Samples.c1 Samples.hello 1793608496123);
      (false, CreateNewConversation Samples.c2 1793608500000) ].

Lemma rename_keeps_text_or_falls_back_witness :
  exists conv',
    nth_error (conversations
                 (step two_chats false
                    (UpdateConversationTitle Samples.c1 (lit "   ")))) 1
    = Some conv' /\
    title conv' = lit "New Chat".
Proof.
  destruct (@rename_keeps_text_or_falls_back unit two_chats false Samples.c1 (lit "   ") 1
              _ eq_refl eq_refl) as (conv' & H1 & H2 & _).
  exists conv'. split; [exact H1|exact H2].
Defined.

Lemma edits_keep_collection_shape_witness :
  map (@id unit)
    (conversations (step two_chats false (ClearCurrentConversation true 5)))
  = [Samples.c2; Samples.c1].
Proof.
  rewrite (proj1 (@edits_keep_collection_shape unit two_chats false
                    (ClearCurrentConversation true 5) eq_refl)).
  reflexivity.
Defined.

Lemma addMessage_leaves_others_witness :
  nth_error (conversations
               (step two_chats true
                  (AddMessageToConversation Samples.c1 Samples.hello 9))) 0
  = Some (newConversation Samples.c2 1793608500000).
Proof.
  apply (@addMessage_leaves_others unit two_chats true Samples.c1 Samples.hello 9 0).
  - reflexivity.
  - discriminate.
Defined.

Lemma clearing_rearms_auto_title_witness :
  exists conv',
    nth_error (conversations
                 (step (step two_chats false (ClearCurrentConversation true 5)) false
                    (AddMessageToConversation Samples.c2 Samples.long_question 6))) 0
    = Some conv' /\
    title conv' = repeat 97%N 30 ++ lit "...".
Proof.
  destruct (@clearing_rearms_auto_title unit two_chats false false Samples.c2
              Samples.long_question
              5 6 0 (newConversation Samples.c2 1793608500000))
    as (conv' & H1 & _ & H3 & _).
  - repeat constructor; simpl; intuition discriminate.
  - reflexivity.
  - reflexivity.
  - reflexivity.
  - reflexivity.
  - exists conv'. split; [exact H1|]. rewrite H3. reflexivity.
Defined.

Lemma conversation_ids_stay_unique_witness :
  NoDup (map (@id unit) (conversations two_chats)).
Proof.
  apply (@conversation_ids_stay_unique unit None Samples.c1 0
           [ (false, AddMessageToConversation Samples.c1 Samples.hello 1793608496123);
             (false, CreateNewConversation Samples.c2 1793608500000) ]).
  - exact I.
  - simpl. repeat split. intros [E|[]]. discriminate E.
Defined.

Lemma current_conversation_lookup_witness :
  exists conv,
    currentConversation two_chats = Some conv /\ id conv = Samples.c2.
Proof.
  destruct (@current_conversation_lookup unit None Samples.c1 0
              [ (false, AddMessageToConversation Samples.c1 Samples.hello 1793608496123);
                (false, CreateNewConversation Samples.c2 1793608500000) ])
    as ((conv & H1 & _ & H3) & _).
  - simpl. repeat split.
  - exists conv. split; [exact H1|]. injection H3 as <-. reflexivity.
Defined.

Lemma saved_snapshot_is_stable_witness :
  let store1 := saveEffect (fun e => e) two_chats None in
  saveEffect (fun e => e) (initialize store1 Samples.nowhere 0) store1 = store1.
Proof.
  apply (@saved_snapshot_is_stable unit (fun e => e) two_chats None Samples.nowhere 0).
  - reflexivity.
  - reflexivity.
  - discriminate.
  - intros conv [<-|[<-|[]]].
    + exists 1793608500000%Z. split; [reflexivity|]. unfold valid_time, maxTimeValue. lia.
    + exists 1793608496123%Z. split; [reflexivity|]. unfold valid_time, maxTimeValue. lia.
Defined.

End ConversationsMore.

(* ================================================================= *)
(** ** More of [useFileUpload] *)

Module FileUploadMore.
Import Js Eff FileUpload FileUploadFacts.
Local Open Scope Z_scope.

Implicit Types (w : World) (f r : UploadedFile) (fs : list UploadedFile).

(** *** The stored snapshot of the uploaded files *)

(** What [JSON.parse] reads back for one record of the [uploadedFiles] key.
    Snapshots of older versions may lack [category] and
    [processingStatus]. *)
Record SavedFile := {
  saved_id : JsString;
  saved_name : JsString;
  saved_size : Z;
  saved_uploadDate : option JsString;
  saved_success : bool;
  saved_category : option DocumentCategory;
  saved_processingStatus : option ProcessingStatus;
  saved_documentId : option JsString
}.

Definition stringifyFile f : SavedFile :=
  {| saved_id := id f; saved_name := name f; saved_size := size f;
     saved_uploadDate := toJSON (uploadDate f); saved_success := success f;
     saved_category := Some (category f);
     saved_processingStatus := Some (processingStatus f);
     saved_documentId := documentId f |}.

(** The save effect: [localStorage.setItem('uploadedFiles', ...)]. *)
Definition saveFiles w : option (list SavedFile) :=
  Some (map stringifyFile (uploadedFiles w)).

Definition reviveFile (file : SavedFile) : UploadedFile :=
  {| id := saved_id file; name := saved_name file; size := saved_size file;
     uploadDate := Date_of_json (saved_uploadDate file);
     success := saved_success file;
     category := match saved_category file with Some c => c | None => general end;
     processingStatus :=
       match saved_processingStatus file with Some st => st | None => completed end;
     documentId := saved_documentId file |}.

(** The load effect; [None] when the key is absent or empty. *)
Definition loadFiles (store : option (list SavedFile)) w : World :=
  match store with
  | Some saved => with_files (fun _ => map reviveFile saved) w
  | None => w
  end.

(** *** Unchanging fields *)

(** [r'] is [r] at a later time: everything except the category is the same,
    and the status is the same or has become [completed]. *)
Definition later_form r r' : Prop :=
  id r' = id r /\ name r' = name r /\ size r' = size r /\
  uploadDate r' = uploadDate r /\ success r' = success r /\
  documentId r' = documentId r /\
  (processingStatus r' = processingStatus r \/ processingStatus r' = completed).

(** A record as the upload loop inserts it. *)
Definition as_inserted r : Prop :=
  (processingStatus r = processing /\ success r = true) \/
  (processingStatus r = failed /\ success r = false /\ documentId r = None).

(** Every record of [w'] is a later form of a record of [w] or of a record
    as the upload loop inserts it. *)
Definition evolved w w' : Prop :=
  forall r', In r' (uploadedFiles w') ->
    exists r, later_form r r' /\ (In r (uploadedFiles w) \/ as_inserted r).


(** The body of a response with which the backend accepted an upload. *)
Definition answered (network : nat -> Exchange) (data : UploadData) : Prop :=
  exists k resp,
    fetch_result (network k) = Fulfilled resp /\ ok resp = true /\
    json resp = Fulfilled data.




(** The worlds hold the same collection, timers and clock, and as many ids
    have been drawn. *)
Definition same_view w w' : Prop := same_core w w' /\ uuids w = uuids w'.

(** Every file the call hands to [uploadFiles] is one of [handed]. *)
Definition hands_over (handed : File -> Prop) (a : Action) : Prop :=
  match a with
  | CallUploadFiles (Some files) _ => Forall handed files
  | _ => True
  end.

(** Every record still [processing] has its completion scheduled within
    3000 ms. *)
Definition all_scheduled w : Prop :=
  forall r, In r (uploadedFiles w) -> processingStatus r = processing ->
    exists d, In (d, id r) (timers w) /\ d <= clock w + 3000.

Definition category_count (c : DocumentCategory) w : nat :=
  List.length (getFilesByCategory (Some c) w).

(** *** Category views *)

Lemma category_eqb_eq (a b : DocumentCategory) : category_eqb a b = true <-> a = b.
Proof. destruct a, b; simpl; split; intros H; try reflexivity; discriminate. Qed.

Lemma partition_length fs :
  List.length fs =
  (List.length (filter (fun f => category_eqb (category f) general) fs)
   + List.length (filter (fun f => category_eqb (category f) technical) fs)
   + List.length (filter (fun f => category_eqb (category f) business) fs)
   + List.length (filter (fun f => category_eqb (category f) research) fs)
   + List.length (filter (fun f => category_eqb (category f) other) fs))%nat.
Proof.
  induction fs as [|f fs IH]; simpl.
  - reflexivity.
  - destruct (category f); simpl; lia.
Qed.

(** ['all'] shows the whole collection; a category shows exactly the records
    of that category; the five category views together show every record
    exactly once. *)
Theorem category_views_partition :
  forall w,
    getFilesByCategory None w = uploadedFiles w /\
    (forall c f,
        In f (getFilesByCategory (Some c) w) <-> In f (uploadedFiles w) /\ category f = c) /\
    List.length (uploadedFiles w) =
      (category_count general w + category_count technical w + category_count business w
       + category_count research w + category_count other w)%nat.
Proof.
  intros w. split; [reflexivity|]. split.
  - intros c f. simpl. rewrite filter_In, category_eqb_eq. tauto.
  - apply partition_length.
Qed.

(** Changing the category of a record moves it, and only it, to the new
    category view: its other fields, its position and everything else in the
    hook stay as they are. *)
Theorem recategorized_record_moves :
  forall w (fileId : JsString) (c : DocumentCategory) (n : nat) f,
    nth_error (uploadedFiles w) n = Some f ->
    id f = fileId ->
    let w' := updateFileCategory fileId c w in
    nth_error (uploadedFiles w') n = Some (with_category c f) /\
    In (with_category c f) (getFilesByCategory (Some c) w') /\
    (forall c', c' <> c -> forall f', In f' (getFilesByCategory (Some c') w') ->
                id f' <> fileId) /\
    (forall m f', nth_error (uploadedFiles w) m = Some f' -> id f' <> fileId ->
                  nth_error (uploadedFiles w') m = Some f') /\
    timers w' = timers w /\ clock w' = clock w /\ log w' = log w.
Proof.
  intros w fileId c n f Hn Hid w'.
  assert (Hmap : forall m f', nth_error (uploadedFiles w) m = Some f' ->
            nth_error (uploadedFiles w') m
            = Some (if has_id fileId f' then with_category c f' else f')).
  { intros m f' Hm. unfold w'. simpl.
    exact (map_nth_error (fun f0 => if has_id fileId f0 then with_category c f0 else f0)
             _ _ Hm). }
  assert (Hn' : nth_error (uploadedFiles w') n = Some (with_category c f)).
  { rewrite (Hmap n f Hn). apply has_id_true in Hid. rewrite Hid. reflexivity. }
  split; [exact Hn'|]. split; [|split; [|split]].
  - simpl. apply filter_In. split.
    + apply (nth_error_In _ _ Hn').
    + simpl. apply category_eqb_eq. reflexivity.
  - intros c' Hc' f' Hin. simpl in Hin. apply filter_In in Hin.
    destruct Hin as [Hin Hcat]. apply category_eqb_eq in Hcat.
    apply in_map_iff in Hin. destruct Hin as (f0 & E & _).
    destruct (has_id fileId f0) eqn:Eid.
    + subst f'. simpl in Hcat. congruence.
    + subst f'. apply has_id_false. exact Eid.
  - intros m f' Hm Hne. rewrite (Hmap m f' Hm).
    apply has_id_false in Hne. rewrite Hne. reflexivity.
  - auto.
Qed.

(** *** Properties kept by every handler *)

Lemma arrival_answered (uuidv4 : nat -> JsString) (network : nat -> Exchange)
    cat file w data :
  snd (arrival network cat file w) = Some data -> answered network data.
Proof.
  rewrite arrival_outcome. intros H.
  destruct (fetch_result (network (fetches w))) as [resp|e] eqn:Er; [|discriminate].
  destruct (json resp) as [d|e] eqn:Ej; [|discriminate].
  destruct (ok resp) eqn:Eo; [|discriminate].
  injection H as ->. exists (fetches w), resp. auto.
Qed.

Lemma same_view_sym w w' : same_view w w' -> same_view w' w.
Proof. intros ((E1 & E2 & E3) & E4). repeat split; symmetry; assumption. Qed.

Section Preservation.
Variable uuidv4 : nat -> JsString.
Variable network : nat -> Exchange.

(** A property of the collection, the timers, the clock and the number of
    ids drawn that events and both kinds of insertion keep is kept by every
    handler call. *)
Variable handed : File -> Prop.
Variable P : World -> Prop.
Hypothesis P_view : forall w w', same_view w w' -> P w -> P w'.
Hypothesis P_happen : forall e w, P w -> P (happen e w).
Hypothesis P_success :
  forall w file cat data,
    handed file ->
    answered network data ->
    P w ->
    P (with_timers (timers w ++ [(clock w + 3000, uuidv4 (uuids w))])
         (with_files
            (cons (successEntry (uuidv4 (uuids w)) file (TimeValue (clock w)) cat data))
            (next_uuid w))).
Hypothesis P_failure :
  forall w file cat,
    handed file ->
    P w ->
    P (with_files (cons (failedEntry (uuidv4 (uuids w)) file (TimeValue (clock w)) cat))
         (next_uuid w)).

Lemma kept_by_events es : forall w, P w -> P (happen_all es w).
Proof.
  induction es as [|e es IH]; intros w H; simpl.
  - exact H.
  - apply IH. apply P_happen. exact H.
Qed.

Lemma kept_by_uploadOne cat file w :
  handed file -> P w -> P (after_uploadOne uuidv4 network cat file w).
Proof.
  intros Hfile H.
  pose proof (arrival_core network cat file w) as Hcore.
  pose proof (arrival_frame network cat file w) as Hfr. cbv zeta in Hfr.
  destruct Hfr as (Eu & _).
  pose proof (@arrival_answered uuidv4 network cat file w) as Hans.
  destruct (happen_all_frame (meanwhile (network (fetches w))) w) as (Euh & _).
  set (wh := happen_all (meanwhile (network (fetches w))) w) in *.
  assert (Hh : P wh) by (apply kept_by_events; exact H).
  destruct Hcore as (Ef & Et & Ec).
  unfold after_uploadOne, entry_for.
  destruct (arrival network cat file w) as [wa res]. simpl in *.
  destruct res as [data|].
  - apply (P_view (w := with_timers (timers wh ++ [(clock wh + 3000, uuidv4 (uuids wh))])
                          (with_files (cons (successEntry (uuidv4 (uuids wh)) file
                                               (TimeValue (clock wh)) cat data))
                             (next_uuid wh)))).
    + unfold same_view, same_core. simpl. rewrite Ef, Et, Ec, Eu, Euh. auto.
    + apply P_success; [exact Hfile|apply Hans; reflexivity|exact Hh].
  - apply (P_view (w := with_files (cons (failedEntry (uuidv4 (uuids wh)) file
                                            (TimeValue (clock wh)) cat))
                          (next_uuid wh))).
    + unfold same_view, same_core. simpl. rewrite Ef, Et, Ec, Eu, Euh. auto.
    + apply P_failure; [exact Hfile|exact Hh].
Qed.

Lemma kept_by_batch cat files : forall w,
  Forall handed files -> P w -> P (after_batch uuidv4 network cat files w).
Proof.
  induction files as [|file files IH]; intros w Hfiles H; simpl.
  - exact H.
  - inversion Hfiles as [|? ? Hfile Hrest]; subst.
    apply IH; [exact Hrest|]. apply kept_by_uploadOne; assumption.
Qed.

Lemma kept_by_action (a : Action) w :
  hands_over handed a -> P w -> P (act uuidv4 network a w).
Proof.
  intros Ha H. destruct a as [e|files cat|fileId]; simpl.
  - apply P_happen. exact H.
  - destruct files as [files|]; [|exact H].
    rewrite uploadFiles_eq. cbn [final].
    apply (P_view (w := after_batch uuidv4 network cat files (with_uploading true w))).
    + unfold same_view, same_core. simpl. auto.
    + apply kept_by_batch; [exact Ha|]. apply (P_view (w := w)); [|exact H].
      unfold same_view, same_core. simpl. auto.
  - rewrite deleteFileFromKnowledgeBase_eq. cbn [final].
    destruct (remote_key fileId w) as [docId|].
    + assert (H1 : P (after_fetch network (DeleteDocument docId) w)).
      { apply (P_view (w := happen_all (fetch_meanwhile (network (fetches w))) w)).
        - apply same_view_sym. split; [apply after_fetch_core|].
          unfold after_fetch.
          destruct (happen_all_frame (fetch_meanwhile (network (fetches w)))
                      (next_fetch (logged (Requested (DeleteDocument docId)) w)))
            as (-> & _).
          destruct (happen_all_frame (fetch_meanwhile (network (fetches w))) w)
            as (-> & _).
          reflexivity.
        - apply kept_by_events. exact H. }
      cbv zeta. destruct (fetch_result (network (fetches w))) as [resp|e]; [|exact H1].
      destruct (ok resp); [|exact H1].
      apply (P_happen (DeleteFile fileId)). exact H1.
    + apply (P_happen (DeleteFile fileId)). exact H.
Qed.

Lemma kept_by_actions (acts : list Action) : forall w,
  Forall (hands_over handed) acts -> P w -> P (act_all uuidv4 network acts w).
Proof.
  induction acts as [|a acts IH]; intros w Hacts H; simpl.
  - exact H.
  - inversion Hacts as [|? ? Ha Hrest]; subst.
    apply IH; [exact Hrest|]. apply kept_by_action; assumption.
Qed.

End Preservation.

Lemma hands_over_anything (acts : list Action) :
  Forall (hands_over (fun _ => True)) acts.
Proof.
  apply Forall_forall. intros a _. destruct a as [e|[files|] cat|fileId]; simpl; auto.
  apply Forall_forall. auto.
Qed.


(** *** Records only move forward *)

Lemma later_form_refl r : later_form r r.
Proof. unfold later_form. repeat split; auto. Qed.


Lemma later_form_completed_by ready f : later_form f (completed_by ready f).
Proof.
  unfold completed_by. destruct (existsb _ ready).
  - unfold later_form. simpl. repeat split; auto.
  - apply later_form_refl.
Qed.

Lemma evolved_happen e w : evolved w (happen e w).
Proof.
  intros r' Hr'. destruct e as [ms|fileId|fileId c]; simpl in Hr'.
  - rewrite fire_due_eq in Hr'. simpl in Hr'. apply in_map_iff in Hr'.
    destruct Hr' as (f & <- & Hf). exists f.
    split; [apply later_form_completed_by|left; exact Hf].
  - apply filter_In in Hr'. exists r'.
    split; [apply later_form_refl|left; apply Hr'].
  - apply in_map_iff in Hr'. destruct Hr' as (f & <- & Hf). exists f.
    split; [|left; exact Hf].
    destruct (has_id fileId f); [|apply later_form_refl].
    unfold later_form. simpl. repeat split; auto.
Qed.





Section Forward.
Variable uuidv4 : nat -> JsString.
Variable network : nat -> Exchange.







(** If every [failed] record has [success = false] and no [documentId], this
    stays so whatever is uploaded, deleted or edited and however much time
    passes. *)
Theorem failed_records_stay_consistent :
  forall (acts : list Action) w,
    (forall r, In r (uploadedFiles w) -> processingStatus r = failed ->
               success r = false /\ documentId r = None) ->
    forall r, In r (uploadedFiles (act_all uuidv4 network acts w)) ->
              processingStatus r = failed ->
              success r = false /\ documentId r = None.
Proof.
  intros acts w H0.
  apply (@kept_by_actions uuidv4 network (fun _ => True)
           (fun w' => forall r, In r (uploadedFiles w') -> processingStatus r = failed ->
                                success r = false /\ documentId r = None)).
  - intros w1 w2 ((Ef & _) & _) H r Hr. rewrite <- Ef in Hr. exact (H r Hr).
  - intros e w1 H r' Hr' Hst.
    destruct (evolved_happen e w1 r' Hr') as (r & L & [Hin|Hnew]).
    + destruct L as (_ & _ & _ & _ & Es & Ed & [Est|Est]); [|congruence].
      rewrite Es, Ed. apply H; [exact Hin|congruence].
    + destruct L as (_ & _ & _ & _ & Es & Ed & [Est|Est]); [|congruence].
      rewrite Es, Ed. destruct Hnew as [[Hp _]|(_ & Hs & Hd)]; [congruence|auto].
  - intros w1 file cat data _ _ H r [<-|Hr]; [simpl; discriminate|exact (H r Hr)].
  - intros w1 file cat _ H r [<-|Hr]; [simpl; auto|exact (H r Hr)].
  - apply hands_over_anything.
  - exact H0.
Qed.

(** *** Nothing stays in [processing] *)

Lemma all_scheduled_happen e w : all_scheduled w -> all_scheduled (happen e w).
Proof.
  intros H. destruct e as [ms|fileId|fileId c]; simpl.
  - rewrite fire_due_eq. intros r' Hr' Hst. simpl in *.
    apply in_map_iff in Hr'. destruct Hr' as (f & <- & Hf).
    rewrite completed_by_id.
    destruct (completed_by_status (filter (due (clock w + Z.of_N ms)) (timers w)) f)
      as [Hc|Hc]; [congruence|].
    rewrite Hc in Hst. destruct (H f Hf Hst) as (d & Hd & Hle).
    exists d. split; [|lia]. apply filter_In. split; [exact Hd|].
    apply negb_true_iff.
    destruct (due (clock w + Z.of_N ms) (d, id f)) eqn:Edue; [|reflexivity].
    exfalso.
    assert (Hdone : processingStatus
                      (completed_by (filter (due (clock w + Z.of_N ms)) (timers w)) f)
                    = completed).
    { apply completed_by_ready with (t := (d, id f)); [|reflexivity].
      apply filter_In. split; assumption. }
    rewrite Hc in Hdone. congruence.
  - intros r Hr Hst. simpl in *. apply filter_In in Hr. apply H; [apply Hr|exact Hst].
  - intros r' Hr' Hst. simpl in *. apply in_map_iff in Hr'.
    destruct Hr' as (f & <- & Hf).
    destruct (has_id fileId f); simpl in *; apply H; assumption.
Qed.

(** Provided every record that is [processing] at the start has its
    completion scheduled (as when the collection starts empty), then after
    any uploads, deletions and edits, once 3000 ms or more pass in one go no
    record is left [processing]. *)
Theorem nothing_left_processing :
  forall (acts : list Action) w (ms : N),
    all_scheduled w ->
    3000 <= Z.of_N ms ->
    forall r, In r (uploadedFiles (happen (Elapse ms) (act_all uuidv4 network acts w))) ->
              processingStatus r <> processing.
Proof.
  intros acts w ms H0 Hms.
  assert (H : all_scheduled (act_all uuidv4 network acts w)).
  { apply (@kept_by_actions uuidv4 network (fun _ => True) all_scheduled).
    - intros w1 w2 ((Ef & Et & Ec) & _) H r Hr Hst.
      rewrite <- Ef in Hr. rewrite <- Et, <- Ec. exact (H r Hr Hst).
    - apply all_scheduled_happen.
    - intros w1 file cat data _ _ H r [<-|Hr] Hst; simpl.
      + exists (clock w1 + 3000). split; [|lia]. apply in_or_app. right. left. reflexivity.
      + destruct (H r Hr Hst) as (d & Hd & Hle). exists d.
        split; [apply in_or_app; left; exact Hd|exact Hle].
    - intros w1 file cat _ H r [<-|Hr] Hst; simpl in *; [discriminate|].
      exact (H r Hr Hst).
    - apply hands_over_anything.
    - exact H0. }
  set (w1 := act_all uuidv4 network acts w) in *.
  intros r Hr Hst. simpl in Hr. rewrite fire_due_eq in Hr. simpl in Hr.
  apply in_map_iff in Hr. destruct Hr as (f & <- & Hf).
  destruct (completed_by_status (filter (due (clock w1 + Z.of_N ms)) (timers w1)) f)
    as [Hc|Hc]; [congruence|].
  rewrite Hc in Hst. destruct (H f Hf Hst) as (d & Hd & Hle).
  assert (Hdone : processingStatus
                    (completed_by (filter (due (clock w1 + Z.of_N ms)) (timers w1)) f)
                  = completed).
  { apply completed_by_ready with (t := (d, id f)); [|reflexivity].
    apply filter_In. split; [exact Hd|]. unfold due. simpl. apply Z.leb_le. lia. }
  rewrite Hc in Hdone. congruence.
Qed.

End Forward.

(** *** Nothing to do *)

Section Idle.
Variable uuidv4 : nat -> JsString.
Variable network : nat -> Exchange.

Lemma find_unmatched fileId fs :
  (forall f, In f fs -> id f <> fileId) -> find (has_id fileId) fs = None.
Proof.
  intros H. induction fs as [|f fs IH]; simpl.
  - reflexivity.
  - assert (Hf : has_id fileId f = false)
      by (apply has_id_false; apply H; left; reflexivity).
    rewrite Hf. apply IH. intros f' Hin. apply H. right; exact Hin.
Qed.

Lemma deleteFile_unmatched fileId w :
  (forall f, In f (uploadedFiles w) -> id f <> fileId) -> deleteFile fileId w = w.
Proof.
  intros H. unfold deleteFile. rewrite <- (with_files_id w) at 2.
  apply with_files_ext. apply filter_unmatched. exact H.
Qed.

(** [deleteFileFromKnowledgeBase] with an id no record has sends nothing and
    changes nothing. *)
Theorem remote_delete_of_unknown_id :
  forall (fileId : JsString) w,
    (forall f, In f (uploadedFiles w) -> id f <> fileId) ->
    deleteFileFromKnowledgeBase network fileId w = Normal tt w.
Proof.
  intros fileId w H. rewrite deleteFileFromKnowledgeBase_eq.
  unfold remote_key. rewrite find_unmatched by exact H.
  rewrite deleteFile_unmatched by exact H. reflexivity.
Qed.

(** [uploadFiles(null)] touches nothing, not even [isUploading].  With a
    file list, one request is sent and one id is drawn per file, and
    [isUploading] is false at the end whatever the responses were; an empty
    list leaves the collection, the timers and the request log as they
    were. *)
Theorem uploadFiles_bookkeeping :
  forall (files : list File) (cat : DocumentCategory) w,
    uploadFiles uuidv4 network None cat w = Normal tt w /\
    let w' := final (uploadFiles uuidv4 network (Some files) cat w) in
    isUploading w' = false /\
    fetches w' = (fetches w + List.length files)%nat /\
    uuids w' = (uuids w + List.length files)%nat /\
    (files = [] ->
     uploadedFiles w' = uploadedFiles w /\ timers w' = timers w /\ log w' = log w).
Proof.
  intros files cat w. split; [reflexivity|].
  rewrite uploadFiles_eq. cbn [final].
  destruct (after_batch_frame uuidv4 network cat files (with_uploading true w))
    as (Hu & Hf & _ & _).
  split; [reflexivity|]. split; [exact Hf|]. split; [exact Hu|].
  intros ->. simpl. auto.
Qed.

End Idle.

(** *** Reloading the uploaded files *)

Lemma reviveFile_stringifyFile f :
  valid_date (uploadDate f) -> reviveFile (stringifyFile f) = f.
Proof.
  intros (t & Ht & Hv). destruct f as [i n sz d su c st doc]. simpl in *. subst d.
  unfold reviveFile, stringifyFile. simpl.
  rewrite DateFacts.parse_iso_toISOString by exact Hv. reflexivity.
Qed.

Lemma idle_timers_happen e w :
  timers w = [] ->
  timers (happen e w) = [] /\
  forall r', In r' (uploadedFiles (happen e w)) ->
    exists r, In r (uploadedFiles w) /\ id r' = id r /\
              processingStatus r' = processingStatus r.
Proof.
  intros Ht. destruct e as [ms|fileId|fileId c]; simpl.
  - rewrite fire_due_eq. simpl. rewrite Ht. simpl. split; [reflexivity|].
    intros r' Hr'. apply in_map_iff in Hr'. destruct Hr' as (f & <- & Hf).
    exists f. unfold completed_by. simpl. auto.
  - split; [exact Ht|]. intros r' Hr'. apply filter_In in Hr'.
    exists r'. split; [apply Hr'|auto].
  - split; [exact Ht|]. intros r' Hr'. apply in_map_iff in Hr'.
    destruct Hr' as (f & <- & Hf). exists f. split; [exact Hf|].
    destruct (has_id fileId f); auto.
Qed.

Lemma idle_timers_happen_all es : forall w,
  timers w = [] ->
  forall r', In r' (uploadedFiles (happen_all es w)) ->
    exists r, In r (uploadedFiles w) /\ id r' = id r /\
              processingStatus r' = processingStatus r.
Proof.
  induction es as [|e es IH]; intros w Ht r' Hr'; simpl in Hr'.
  - exists r'. auto.
  - destruct (idle_timers_happen e w Ht) as [Ht' Hstep].
    destruct (IH (happen e w) Ht' r' Hr') as (r1 & Hin1 & E1 & E2).
    destruct (Hstep r1 Hin1) as (r & Hin & F1 & F2).
    exists r. split; [exact Hin|]. split; congruence.
Qed.

(** A collection with valid upload dates is saved and loaded back as it is,
    the status of every record included.  Timers are not part of the
    snapshot: in a session that starts from the loaded collection with no
    timer pending, a record keeps the status it was loaded with however much
    time passes and whatever is deleted or recategorized, so a record saved
    as [processing] stays [processing]. *)
Theorem upload_snapshot_round_trip :
  forall w w0,
    (forall r, In r (uploadedFiles w) -> valid_date (uploadDate r)) ->
    let loaded := loadFiles (saveFiles w) w0 in
    uploadedFiles loaded = uploadedFiles w /\
    (timers w0 = [] ->
     forall es r', In r' (uploadedFiles (happen_all es loaded)) ->
       exists r, In r (uploadedFiles w) /\ id r' = id r /\
                 processingStatus r' = processingStatus r).
Proof.
  intros w w0 Hvalid loaded.
  assert (E : uploadedFiles loaded = uploadedFiles w).
  { unfold loaded. simpl. rewrite map_map.
    rewrite <- (map_id (uploadedFiles w)) at 2. apply map_ext_in.
    intros r Hr. apply reviveFile_stringifyFile. apply Hvalid. exact Hr. }
  split; [exact E|].
  intros Ht es r' Hr'.
  destruct (idle_timers_happen_all es loaded Ht r' Hr') as (r & Hin & H1 & H2).
  exists r. rewrite <- E. auto.
Qed.

(** *** Instances *)

Unset Implicit Arguments.

Definition quiet : nat -> Exchange := Samples.always (Samples.accepted (lit "doc-1")).

Definition after_two_uploads : World :=
  act_all Samples.numbered quiet
    [ CallUploadFiles (Some [Samples.report; Samples.notes]) technical ] Samples.idle.

Lemma recategorized_record_moves_witness :
  In (with_category business (Samples.stored (lit "f-1") None))
    (getFilesByCategory (Some business)
       (updateFileCategory (lit "f-1") business
          (Samples.holding [Samples.stored (lit "f-1") None]))).
Proof.
  apply (proj1 (proj2 (@recategorized_record_moves
                         (Samples.holding [Samples.stored (lit "f-1") None])
                         (lit "f-1") business 0 _ eq_refl eq_refl))).
Defined.


Lemma failed_records_stay_consistent_witness :
  let w := act_all Samples.numbered (Samples.always Samples.rejected)
             [ CallUploadFiles (Some [Samples.report]) general;
               Happens (Elapse 5000) ] Samples.idle in
  let r := failedEntry (Samples.numbered 0) Samples.report (TimeValue 0) general in
  In r (uploadedFiles w) /\ success r = false /\ documentId r = None.
Proof.
  intros w r.
  assert (Hin : In r (uploadedFiles w)) by (vm_compute; left; reflexivity).
  split; [exact Hin|].
  exact (@failed_records_stay_consistent Samples.numbered (Samples.always Samples.rejected)
           [ CallUploadFiles (Some [Samples.report]) general; Happens (Elapse 5000) ]
           Samples.idle
           (fun r0 (H : In r0 []) => match H with end) r Hin eq_refl).
Defined.

Definition is_processing (st : ProcessingStatus) : bool :=
  match st with processing => true | _ => false end.

Lemma nothing_left_processing_witness :
  existsb (fun r => is_processing (processingStatus r))
    (uploadedFiles
       (happen (Elapse 3000)
          (act_all Samples.numbered quiet
             [ CallUploadFiles (Some [Samples.report; Samples.notes]) technical ]
             Samples.idle)))
  = false.
Proof.
  destruct (existsb _ _) eqn:E; [|reflexivity].
  exfalso. apply existsb_exists in E. destruct E as (r & Hr & Hst).
  refine (@nothing_left_processing Samples.numbered quiet
            [ CallUploadFiles (Some [Samples.report; Samples.notes]) technical ]
            Samples.idle 3000
            (fun r0 (H : In r0 []) => match H with end) _ r Hr _).
  - intros H. discriminate H.
  - destruct (processingStatus r); try discriminate Hst. reflexivity.
Defined.

Lemma remote_delete_of_unknown_id_witness :
  deleteFileFromKnowledgeBase (Samples.always Samples.unreachable) (lit "f-9")
    (Samples.holding [Samples.stored (lit "f-1") (Some (lit "doc-1"))])
  = Normal tt (Samples.holding [Samples.stored (lit "f-1") (Some (lit "doc-1"))]).
Proof.
  apply (@remote_delete_of_unknown_id (Samples.always Samples.unreachable) (lit "f-9")).
  intros f [<-|[]]. discriminate.
Defined.

Lemma uploadFiles_bookkeeping_witness :
  let w' := final (uploadFiles Samples.numbered quiet (Some []) general Samples.idle) in
  uploadedFiles w' = [] /\ timers w' = [] /\ log w' = [].
Proof.
  apply (proj2 (proj2 (proj2 (proj2 (@uploadFiles_bookkeeping Samples.numbered quiet
                                       [] general Samples.idle))))).
  reflexivity.
Defined.

Lemma upload_snapshot_round_trip_witness :
  let w := Samples.holding [Samples.stored (lit "f-1") (Some (lit "doc-1"))] in
  uploadedFiles (loadFiles (saveFiles w) Samples.idle) = uploadedFiles w.
Proof.
  intros w.
  refine (proj1 (@upload_snapshot_round_trip w Samples.idle _)).
  intros r [<-|[]]. exists 0%Z. split; [reflexivity|].
  unfold valid_time, maxTimeValue. lia.
Defined.

Set Implicit Arguments.

End FileUploadMore.

(* ================================================================= *)
(** ** More of [useFileList] *)

Module FileListMore.
Import Js Eff FileList FileListFacts.

(** A refresh forgets what was held before: what the hook holds afterwards
    depends on the response and on the clock only, never on the files or the
    error of the previous view; and it never shows files together with an
    error. *)
Theorem refresh_forgets_previous_view :
  forall (clock : nat -> Z) (exchange : Outcome Response) (w1 w2 : World),
    dates w1 = dates w2 ->
    final (fetchFiles clock exchange w1) = final (fetchFiles clock exchange w2) /\
    (error (final (fetchFiles clock exchange w1)) <> None ->
     files (final (fetchFiles clock exchange w1)) = []).
Proof.
  intros clock exchange w1 w2 Hd. rewrite !fetchFiles_eq. cbn [final]. rewrite Hd.
  split; [reflexivity|].
  destruct exchange as [resp|e]; [|reflexivity].
  destruct (ok resp); [|reflexivity].
  destruct (json resp) as [data|e]; [|reflexivity].
  simpl. intros H. exfalso. apply H. reflexivity.
Qed.

Unset Implicit Arguments.

Lemma refresh_forgets_previous_view_witness :
  let failure := Rejected (ErrorObject (lit "Failed to fetch")) in
  let stale :=
    {| files := [ {| id := lit "doc-1"; name := lit "report.pdf";
                     originalName := lit "report.pdf"; dateAdded := None |} ];
       isLoading := false; error := None; dates := 0 |} in
  files (final (fetchFiles (fun _ => 0%Z) failure stale)) = [].
Proof.
  intros failure stale.
  refine (proj2 (@refresh_forgets_previous_view (fun _ => 0%Z) failure stale stale eq_refl) _).
  discriminate.
Defined.

Set Implicit Arguments.

End FileListMore.

(* ================================================================= *)
(** ** [ChatMessage]: shortening a source text *)

Module ChatMessage.
Import Js.

(** [truncateText(text, maxLength = 200)], for a whole number [maxLength]. *)
Definition truncateText (text : JsString) (maxLength : nat) : JsString :=
  if Nat.leb (List.length text) maxLength then text
  else firstn maxLength text ++ lit "...".

(** A text within the limit is returned as it is; a longer one is cut to the
    limit and followed by three full stops, so the result never has more
    than [maxLength + 3] characters, always starts like the text, and is
    longer than the text itself when the text exceeds the limit by one or
    two characters. *)
Theorem truncateText_shape :
  forall (text : JsString) (maxLength : nat),
    (List.length text <= maxLength -> truncateText text maxLength = text) /\
    (maxLength < List.length text ->
     truncateText text maxLength = firstn maxLength text ++ [46; 46; 46]%N /\
     List.length (truncateText text maxLength) = maxLength + 3) /\
    List.length (truncateText text maxLength) <= maxLength + 3 /\
    firstn maxLength (truncateText text maxLength) = firstn maxLength text /\
    (List.length text < List.length (truncateText text maxLength) <->
     maxLength < List.length text < maxLength + 3).
Proof.
  intros text maxLength. unfold truncateText.
  destruct (Nat.leb (List.length text) maxLength) eqn:E.
  - apply Nat.leb_le in E. repeat split; try lia; try reflexivity.
  - apply Nat.leb_gt in E.
    assert (Hlen : List.length (firstn maxLength text ++ lit "...") = maxLength + 3).
    { rewrite length_app, length_firstn. simpl. lia. }
    repeat split; try lia; try reflexivity.
    + rewrite firstn_app, length_firstn.
      replace (maxLength - Nat.min maxLength (List.length text)) with 0 by lia.
      simpl. rewrite app_nil_r. rewrite firstn_firstn.
      rewrite Nat.min_id. reflexivity.
Qed.

Unset Implicit Arguments.

Lemma truncateText_shape_witness :
  List.length (truncateText (repeat 97%N 201) 200) = 203.
Proof.
  refine (proj2 (proj1 (proj2 (@truncateText_shape (repeat 97%N 201) 200)) _)).
  rewrite repeat_length. lia.
Defined.

Set Implicit Arguments.

End ChatMessage.
